(** * Pappa Praat: the recording / transcription pipeline of [DictationApp]

    A shallow embedding of [src/main.py].  The application object is a record
    of its attributes, the widgets it owns and the part of the outside world
    it acts on (dialog boxes, daemon threads, Tk timers, the recordings
    directory, the audio device).  Every method is a computation in a small
    state-and-exception monad; calls that leave the program (the audio
    device, the file system, Whisper, the clock) take their outcome as an
    argument.

    Conventions.
    - A Python [str] is a [string] whose characters are the code points
      below 256.
    - A thread body (one iteration of the capture loop; each of the two
      parts of the model loader, before and after Whisper loads) runs
      atomically; the order in which thread bodies and callbacks run is
      left to the caller of the definitions below.
    - Tk widget calls and [messagebox] calls return normally.
    - A float is a binary64 in its normal range, given by an integer
      significand and an exponent.
    - A file whose writing fails is noted as unfinished: nothing is said of
      what is left of it on disk. *)

From Stdlib Require Import ZArith String Ascii Strings.Byte List Lia.
From stdpp Require Import base option list strings pretty gmap.

Open Scope string_scope.
Open Scope list_scope.
Open Scope Z_scope.

(** ** Python values *)

(** [bytes] objects, as returned by [stream.read]. *)
Definition bytes : Type := list byte.

(** Exceptions.  [queue.Empty] is kept apart because
    [check_transcription_queue] catches it by name; every other exception
    carries the text that [str(e)] returns. *)
Inductive exn : Type :=
| QueueEmpty
| Exception (msg : string).

(** [str(e)]; [str(queue.Empty())] is the empty string. *)
Definition str (e : exn) : string :=
  match e with
  | QueueEmpty => ""
  | Exception msg => msg
  end.

Inductive outcome (A : Type) : Type :=
| Return (a : A)
| Raise (e : exn).
Arguments Return {A} a.
Arguments Raise {A} e.

(** [str.strip()] with no argument removes the characters for which
    [str.isspace] holds; below 256 these are the following code points. *)
Definition isspace (c : ascii) : bool :=
  let n := N_of_ascii c in
  ((9 <=? n) && (n <=? 13) || (28 <=? n) && (n <=? 32)
   || (n =? 133) || (n =? 160))%N.

Fixpoint lstrip_chars (l : list ascii) : list ascii :=
  match l with
  | c :: l' => if isspace c then lstrip_chars l' else l
  | [] => []
  end.

Definition strip_chars (l : list ascii) : list ascii :=
  reverse (lstrip_chars (reverse (lstrip_chars l))).

Definition strip (s : string) : string :=
  string_of_list_ascii (strip_chars (list_ascii_of_string s)).

(** [s.startswith(p)] *)
Definition startswith (s p : string) : bool := String.prefix p s.

(** ** Modules the program imports *)

(** [messagebox.showwarning / showerror / showinfo (title, message)] *)
Inductive dialog : Type :=
| ShowWarning (title message : string)
| ShowError (title message : string)
| ShowInfo (title message : string).

(** A loaded Whisper model; [whisper.load_model(name)] builds it from the
    name of its size. *)
Record Whisper : Type := { whisper_name : string }.

(** A [pyaudio.Stream], identified by the order in which [PyAudio.open]
    created it. *)
Record Stream : Type := { stream_id : nat }.

(** What [wave.open(name, 'wb')] leaves on disk once the [with] block is
    left: the header fields and the sample data. *)
Record Wave_write : Type := {
  nchannels : Z;
  sampwidth : Z;
  framerate : Z;
  nframes : Z;
  wave_data : bytes;
}.

(** The functions handed to [threading.Thread(target=...)]. *)
Inductive target : Type :=
| load_model_target
| record_audio_target
| process_audio_target.

(** The callbacks handed to [root.after]. *)
Inductive callback : Type :=
| check_transcription_queue_cb.

(** Text of the record button: ["🎤 Start Recording"] and
    ["⏹️ Stop Recording"]. *)
Inductive button_text : Type :=
| StartRecordingText
| StopRecordingText.

(** ** The application object *)

(** The widgets [setup_ui] creates and the methods read or write.
    [text_area] holds what the user sees; Tk keeps one more newline after
    it, which [text_area.get("1.0", tk.END)] returns as well. *)
Record Widgets : Type := {
  record_btn : button_text;
  status_label : string;
  model_var : string;
  language_var : string;
  text_area : string;
}.

(** What the program does to its surroundings.  [files] holds, by name, the
    artifacts written completely; a name in [unfinished] is that of a file
    on which a write was begun and failed, so that on disk it may be
    missing, empty or incomplete, whatever [files] holds for it. *)
Record World : Type := {
  dialogs : list dialog;                (* message boxes shown, oldest first *)
  threads : list target;                (* daemon threads started, oldest first *)
  timers : list (Z * callback);         (* calls of [root.after], oldest first *)
  files : gmap string Wave_write;       (* the artifacts written *)
  streams_opened : nat;                 (* streams [PyAudio.open] has created *)
  streams_closed : list Stream;         (* streams closed, oldest first *)
  stdout : list string;                 (* lines printed *)
  unfinished : gset string;             (* files whose writing began and failed *)
}.

Record DictationApp : Type := {
  recording : bool;
  frames : list bytes;
  stream : option Stream;
  model : option Whisper;
  model_size : string;
  language : string;
  transcription_queue : list string;
  ui : Widgets;
  world : World;
}.

(** Audio settings, assigned once in [__init__]. *)
Definition channels : Z := 1.
Definition rate : Z := 16000.
Definition chunk : Z := 1024.
(** [PyAudio.get_sample_size(pyaudio.paInt16)] *)
Definition sample_size_paInt16 : Z := 2.
Definition recordings_dir : string := "recordings".

(** *** Attribute assignment *)

Definition set_recording (v : bool) (s : DictationApp) : DictationApp :=
  {| recording := v; frames := frames s; stream := stream s; model := model s;
     model_size := model_size s; language := language s;
     transcription_queue := transcription_queue s; ui := ui s; world := world s |}.

Definition set_frames (v : list bytes) (s : DictationApp) : DictationApp :=
  {| recording := recording s; frames := v; stream := stream s; model := model s;
     model_size := model_size s; language := language s;
     transcription_queue := transcription_queue s; ui := ui s; world := world s |}.

Definition set_stream (v : option Stream) (s : DictationApp) : DictationApp :=
  {| recording := recording s; frames := frames s; stream := v; model := model s;
     model_size := model_size s; language := language s;
     transcription_queue := transcription_queue s; ui := ui s; world := world s |}.

Definition set_model (v : option Whisper) (s : DictationApp) : DictationApp :=
  {| recording := recording s; frames := frames s; stream := stream s; model := v;
     model_size := model_size s; language := language s;
     transcription_queue := transcription_queue s; ui := ui s; world := world s |}.

Definition set_model_size (v : string) (s : DictationApp) : DictationApp :=
  {| recording := recording s; frames := frames s; stream := stream s; model := model s;
     model_size := v; language := language s;
     transcription_queue := transcription_queue s; ui := ui s; world := world s |}.

Definition set_language (v : string) (s : DictationApp) : DictationApp :=
  {| recording := recording s; frames := frames s; stream := stream s; model := model s;
     model_size := model_size s; language := v;
     transcription_queue := transcription_queue s; ui := ui s; world := world s |}.

Definition set_transcription_queue (v : list string) (s : DictationApp) : DictationApp :=
  {| recording := recording s; frames := frames s; stream := stream s; model := model s;
     model_size := model_size s; language := language s;
     transcription_queue := v; ui := ui s; world := world s |}.

Definition set_ui (v : Widgets) (s : DictationApp) : DictationApp :=
  {| recording := recording s; frames := frames s; stream := stream s; model := model s;
     model_size := model_size s; language := language s;
     transcription_queue := transcription_queue s; ui := v; world := world s |}.

Definition set_world (v : World) (s : DictationApp) : DictationApp :=
  {| recording := recording s; frames := frames s; stream := stream s; model := model s;
     model_size := model_size s; language := language s;
     transcription_queue := transcription_queue s; ui := ui s; world := v |}.

Definition set_record_btn (v : button_text) (u : Widgets) : Widgets :=
  {| record_btn := v; status_label := status_label u; model_var := model_var u;
     language_var := language_var u; text_area := text_area u |}.

Definition set_status_label (v : string) (u : Widgets) : Widgets :=
  {| record_btn := record_btn u; status_label := v; model_var := model_var u;
     language_var := language_var u; text_area := text_area u |}.

Definition set_model_var (v : string) (u : Widgets) : Widgets :=
  {| record_btn := record_btn u; status_label := status_label u; model_var := v;
     language_var := language_var u; text_area := text_area u |}.

Definition set_language_var (v : string) (u : Widgets) : Widgets :=
  {| record_btn := record_btn u; status_label := status_label u; model_var := model_var u;
     language_var := v; text_area := text_area u |}.

Definition set_text_area (v : string) (u : Widgets) : Widgets :=
  {| record_btn := record_btn u; status_label := status_label u; model_var := model_var u;
     language_var := language_var u; text_area := v |}.

Definition set_dialogs (v : list dialog) (w : World) : World :=
  {| dialogs := v; threads := threads w; timers := timers w; files := files w;
     streams_opened := streams_opened w; streams_closed := streams_closed w;
     stdout := stdout w;
     unfinished := unfinished w |}.

Definition set_threads (v : list target) (w : World) : World :=
  {| dialogs := dialogs w; threads := v; timers := timers w; files := files w;
     streams_opened := streams_opened w; streams_closed := streams_closed w;
     stdout := stdout w;
     unfinished := unfinished w |}.

Definition set_timers (v : list (Z * callback)) (w : World) : World :=
  {| dialogs := dialogs w; threads := threads w; timers := v; files := files w;
     streams_opened := streams_opened w; streams_closed := streams_closed w;
     stdout := stdout w;
     unfinished := unfinished w |}.

Definition set_files (v : gmap string Wave_write) (w : World) : World :=
  {| dialogs := dialogs w; threads := threads w; timers := timers w; files := v;
     streams_opened := streams_opened w; streams_closed := streams_closed w;
     stdout := stdout w;
     unfinished := unfinished w |}.

Definition set_streams_opened (v : nat) (w : World) : World :=
  {| dialogs := dialogs w; threads := threads w; timers := timers w; files := files w;
     streams_opened := v; streams_closed := streams_closed w;
     stdout := stdout w;
     unfinished := unfinished w |}.

Definition set_streams_closed (v : list Stream) (w : World) : World :=
  {| dialogs := dialogs w; threads := threads w; timers := timers w; files := files w;
     streams_opened := streams_opened w; streams_closed := v;
     stdout := stdout w;
     unfinished := unfinished w |}.

Definition set_stdout (v : list string) (w : World) : World :=
  {| dialogs := dialogs w; threads := threads w; timers := timers w; files := files w;
     streams_opened := streams_opened w; streams_closed := streams_closed w;
     stdout := v;
     unfinished := unfinished w |}.

Definition set_unfinished (v : gset string) (w : World) : World :=
  {| dialogs := dialogs w; threads := threads w; timers := timers w; files := files w;
     streams_opened := streams_opened w; streams_closed := streams_closed w;
     stdout := stdout w;
     unfinished := v |}.

(** ** The monad of methods *)

(** A method takes the application object and gives it back together with
    its result or the exception it raised. *)
Definition M (A : Type) : Type := DictationApp -> outcome A * DictationApp.

Global Instance M_ret : MRet M := fun A (a : A) s => (Return a, s).

Global Instance M_bind : MBind M := fun A B (k : A -> M B) (m : M A) s =>
  match m s with
  | (Return a, s') => k a s'
  | (Raise e, s') => (Raise e, s')
  end.

Definition raise {A} (e : exn) : M A := fun s => (Raise e, s).

(** [try: body except Exception as e: handler(e)] *)
Definition try_except {A} (body : M A) (handler : exn -> M A) : M A :=
  fun s =>
    match body s with
    | (Return a, s') => (Return a, s')
    | (Raise e, s') => handler e s'
    end.

(** Reading an attribute, and running an assignment. *)
Definition get {A} (f : DictationApp -> A) : M A := fun s => (Return (f s), s).
Definition assign (f : DictationApp -> DictationApp) : M unit :=
  fun s => (Return tt, f s).
Definition pass : M unit := mret tt.

(** ** Calls into the surroundings *)

Definition with_ui (f : Widgets -> Widgets) : M unit :=
  assign (fun s => set_ui (f (ui s)) s).
Definition with_world (f : World -> World) : M unit :=
  assign (fun s => set_world (f (world s)) s).

Definition messagebox_showwarning (title message : string) : M unit :=
  with_world (fun w => set_dialogs (dialogs w ++ [ShowWarning title message]) w).
Definition messagebox_showerror (title message : string) : M unit :=
  with_world (fun w => set_dialogs (dialogs w ++ [ShowError title message]) w).

Definition print (line : string) : M unit :=
  with_world (fun w => set_stdout (stdout w ++ [line]) w).

(** [threading.Thread(target=t, daemon=True).start()] *)
Definition thread_start (t : target) : M unit :=
  with_world (fun w => set_threads (threads w ++ [t]) w).

(** [self.root.after(ms, cb)] *)
Definition root_after (ms : Z) (cb : callback) : M unit :=
  with_world (fun w => set_timers (timers w ++ [(ms, cb)]) w).

Definition record_btn_config (text : button_text) : M unit :=
  with_ui (set_record_btn text).
Definition status_label_config (text : string) : M unit :=
  with_ui (set_status_label text).

Definition LF : string := String "010"%char EmptyString.

(** [self.text_area.get("1.0", tk.END)]: the content and Tk's final newline. *)
Definition text_area_get : M string :=
  get (fun s => text_area (ui s) +:+ LF).
(** [self.text_area.insert(tk.END, text)] *)
Definition text_area_insert_END (text : string) : M unit :=
  with_ui (fun u => set_text_area (text_area u +:+ text) u).
(** [self.text_area.see(tk.END)] only scrolls. *)
Definition text_area_see_END : M unit := pass.

(** [self.audio.open(format=..., channels=..., rate=..., input=True,
    frames_per_buffer=...)]; [device] says whether the device could be
    opened. *)
Definition audio_open (device : outcome unit) : M Stream :=
  match device with
  | Return _ =>
      n ← get (fun s => streams_opened (world s));
      with_world (set_streams_opened (S n));;
      mret {| stream_id := n |}
  | Raise e => raise e
  end.

(** [self.stream.read(self.chunk)]; [device] is what the device delivers.
    With no stream the attribute lookup on [None] fails. *)
Definition stream_read (device : outcome bytes) : M bytes :=
  st ← get stream;
  match st with
  | None => raise (Exception "'NoneType' object has no attribute 'read'")
  | Some _ =>
      match device with
      | Return data => mret data
      | Raise e => raise e
      end
  end.

(** [st.stop_stream()] followed by [st.close()]; [device] says whether the
    two calls went through. *)
Definition stream_stop_close (st : Stream) (device : outcome unit) : M unit :=
  match device with
  | Return _ => with_world (fun w => set_streams_closed (streams_closed w ++ [st]) w)
  | Raise e => raise e
  end.

(** [os.makedirs(dir, exist_ok=True)] *)
Definition os_makedirs (fs : outcome unit) : M unit :=
  match fs with
  | Return _ => pass
  | Raise e => raise e
  end.

(** [os.path.join(dir, name)] *)
Definition os_path_join (dir name : string) : string := dir +:+ "/" +:+ name.

(** Python floats are binary64.  [binary64 num den] is the float nearest to
    the rational [num / den] (for [0 <= num], [0 < den], ties to the even
    significand), given as [(m, e)] for the value [m * 2 ^ e] with a
    significand [m] of 53 bits; the numbers met here are far from the
    overflow and underflow thresholds. *)
Definition floor_log2 (num den : Z) : Z :=
  let l := Z.log2 num - Z.log2 den in
  if (if 0 <=? l then den * 2 ^ l <=? num else den <=? num * 2 ^ (- l))
  then l else l - 1.

Definition round_half_even (num den : Z) : Z :=
  let q := num / den in
  let r := num mod den in
  if 2 * r <? den then q
  else if den <? 2 * r then q + 1
  else if Z.even q then q else q + 1.

Definition binary64 (num den : Z) : Z * Z :=
  if num =? 0 then (0, 0)
  else
    let e := floor_log2 num den - 52 in
    (if 0 <=? e then round_half_even num (den * 2 ^ e)
     else round_half_even (num * 2 ^ (- e)) den,
     e).

(** [datetime.now().timestamp()]: the clock is read in microseconds since
    the epoch, the resolution of [datetime], as whole [seconds] and a
    [microsecond] below a million; the result is the float sum
    [seconds + microsecond / 1e6], both operations rounding. *)
Definition timestamp (now : Z) : Z * Z :=
  let seconds := now / 1000000 in
  let microsecond := now mod 1000000 in
  let '(mf, ef) := binary64 microsecond 1000000 in
  let num := seconds * 2 ^ (- ef) + mf in
  let '(m, e) := binary64 (Z.abs num) (2 ^ (- ef)) in
  (Z.sgn num * m, e).

(** [int(x)] of a float truncates towards zero. *)
Definition int_of_float (x : Z * Z) : Z :=
  let '(m, e) := x in
  if 0 <=? e then m * 2 ^ e else Z.quot m (2 ^ (- e)).

(** [int(datetime.now().timestamp())] *)
Definition int_timestamp (now : Z) : Z := int_of_float (timestamp now).

(** [temp_filename] of [process_audio], from the clock read there. *)
Definition temp_filename (now : Z) : string :=
  os_path_join recordings_dir (pretty (int_timestamp now) +:+ ".wav").

(** The [with wave.open(name, 'wb') as wf:] block of [process_audio]:
    [setnchannels], [setsampwidth], [setframerate], then [writeframes],
    which counts [len(data) // (sampwidth * nchannels)] frames.  [fs] says
    whether the file could be written.  A failure may come from the open
    itself or after it, when the file has already been created or
    truncated: the name is then noted in [unfinished]. *)
Definition wave_write (name : string) (nch width fr : Z) (data : bytes)
    (fs : outcome unit) : M unit :=
  match fs with
  | Return _ =>
      with_world (fun w =>
        set_files (<[name := {| nchannels := nch; sampwidth := width;
                                framerate := fr;
                                nframes := Z.of_nat (length data) / (width * nch);
                                wave_data := data |}]> (files w)) w);;
      with_world (fun w => set_unfinished (unfinished w ∖ {[name]}) w)
  | Raise e =>
      with_world (fun w => set_unfinished ({[name]} ∪ unfinished w) w);;
      raise e
  end.

(** [whisper.load_model(name)] *)
Definition whisper_load_model (name : string) (engine : outcome unit) : M Whisper :=
  match engine with
  | Return _ => mret {| whisper_name := name |}
  | Raise e => raise e
  end.

(** [self.model.transcribe(name, language=...)["text"]]; [engine] is what
    Whisper answers.  With no model the attribute lookup on [None] fails. *)
Definition model_transcribe (name lang : string) (engine : outcome string) : M string :=
  m ← get model;
  match m with
  | None => raise (Exception "'NoneType' object has no attribute 'transcribe'")
  | Some _ =>
      match engine with
      | Return text => mret text
      | Raise e => raise e
      end
  end.

(** [self.transcription_queue.put(item)]; the queue is unbounded. *)
Definition queue_put (item : string) : M unit :=
  assign (fun s => set_transcription_queue (transcription_queue s ++ [item]) s).

(** [self.transcription_queue.get_nowait()] *)
Definition queue_get_nowait : M string :=
  fun s =>
    match transcription_queue s with
    | [] => (Raise QueueEmpty, s)
    | item :: q => (Return item, set_transcription_queue q s)
    end.

(** ** The methods of [DictationApp] *)

(** [load_model], the function [load_whisper_model] starts in a thread, in
    two parts, since other handlers and threads run while Whisper loads.
    [load_model_call] goes up to the call of [whisper.load_model], whose
    argument [self.model_size] is read there; [load_model_return] takes
    over when the call, made for [size], returns or raises. *)
Definition load_model_call : M string :=
  size ← get model_size;
  status_label_config ("Loading " +:+ size +:+ " model...");;
  get model_size.

Definition load_model_return (size : string) (engine : outcome unit) : M unit :=
  try_except
    (m ← whisper_load_model size engine;
     assign (set_model (Some m));;
     status_label_config "Model loaded - Ready to record")
    (fun e =>
       messagebox_showerror "Error" ("Failed to load model: " +:+ str e);;
       status_label_config "Model loading failed").

(** The whole body, when nothing else runs between the call and its
    return. *)
Definition load_model (engine : outcome unit) : M unit :=
  size ← load_model_call;
  load_model_return size engine.

Definition load_whisper_model : M unit :=
  thread_start load_model_target.

(** [on_model_change]; [self.model_var.get()] is the size picked in the
    combo box. *)
Definition on_model_change : M unit :=
  new_model ← get (fun s => model_var (ui s));
  size ← get model_size;
  if decide (new_model ≠ size) then
    assign (set_model_size new_model);;
    assign (set_model None);;
    load_whisper_model
  else pass.

Definition on_language_change : M unit :=
  l ← get (fun s => language_var (ui s));
  assign (set_language l).

(** Picking an entry of a combo box sets its variable, then runs the
    handler bound to [<<ComboboxSelected>>]. *)
Definition select_model (size : string) : M unit :=
  with_ui (set_model_var size);; on_model_change.
Definition select_language (lang : string) : M unit :=
  with_ui (set_language_var lang);; on_language_change.

Definition start_recording (device : outcome unit) : M unit :=
  m ← get model;
  match m with
  | None =>
      messagebox_showwarning "Warning" "Please wait for the model to load first."
  | Some _ =>
      try_except
        (assign (set_frames []);;
         st ← audio_open device;
         assign (set_stream (Some st));;
         assign (set_recording true);;
         record_btn_config StopRecordingText;;
         status_label_config "Recording... Click stop when finished";;
         thread_start record_audio_target)
        (fun e =>
           messagebox_showerror "Error" ("Failed to start recording: " +:+ str e))
  end.

(** One turn of the [while self.recording:] loop of [record_audio]. *)
Inductive loop : Type := Continue | Break.

Definition record_audio_iter (device : outcome bytes) : M loop :=
  r ← get recording;
  if r : bool then
    try_except
      (data ← stream_read device;
       fr ← get frames;
       assign (set_frames (fr ++ [data]));;
       mret Continue)
      (fun e => print ("Recording error: " +:+ str e);; mret Break)
  else mret Break.

(** [record_audio], run against the successive answers of the device.  When
    the answers are used up the thread is back at the test of the loop: it
    is [Finished] if [self.recording] is clear and [Running], waiting for
    the next read, if not. *)
Inductive thread_state : Type := Running | Finished.

Fixpoint record_audio (device : list (outcome bytes)) : M thread_state :=
  match device with
  | [] =>
      r ← get recording;
      if r : bool then mret Running else mret Finished
  | d :: device' =>
      c ← record_audio_iter d;
      match c with
      | Continue => record_audio device'
      | Break => mret Finished
      end
  end.

Definition stop_recording (device : outcome unit) : M unit :=
  assign (set_recording false);;
  record_btn_config StartRecordingText;;
  status_label_config "Processing audio...";;
  st ← get stream;
  match st with
  | Some st => stream_stop_close st device
  | None => pass
  end;;
  thread_start process_audio_target.

(** [device] is the answer of the audio device to whichever of the two
    methods runs. *)
Definition toggle_recording (device : outcome unit) : M unit :=
  r ← get recording;
  if negb r then start_recording device else stop_recording device.

(** What [process_audio] meets outside the program. *)
Record process_env : Type := {
  now : Z;                       (* the clock, in microseconds *)
  makedirs_result : outcome unit;
  wave_result : outcome unit;
  transcribe_result : outcome string;
}.

Definition process_audio (env : process_env) : M unit :=
  try_except
    (os_makedirs (makedirs_result env);;
     let temp_filename := temp_filename (now env) in
     fr ← get frames;
     wave_write temp_filename channels sample_size_paInt16 rate (concat fr)
       (wave_result env);;
     lang ← get language;
     text ← model_transcribe temp_filename lang (transcribe_result env);
     let transcription := strip text in
     queue_put transcription)
    (fun e =>
       print (str e);;
       queue_put ("Error: " +:+ str e)).

(** The body of the [while True:] loop of [check_transcription_queue]. *)
Definition show_transcription (transcription : string) : M unit :=
  if startswith transcription "Error:" then
    messagebox_showerror "Transcription Error" transcription;;
    status_label_config "Transcription failed"
  else
    t ← text_area_get;
    let current_text := strip t in
    (if decide (current_text ≠ "") then
       text_area_insert_END (LF +:+ LF +:+ transcription)
     else
       text_area_insert_END transcription);;
    text_area_see_END;;
    status_label_config "Transcription complete - Ready for next recording".

(** [while True: body]: the loop is left by an exception only.  [None]
    when [fuel] turns are not enough. *)
Fixpoint while_True (fuel : nat) (body : M unit) (s : DictationApp)
    : option (exn * DictationApp) :=
  match fuel with
  | O => None
  | S fuel' =>
      match body s with
      | (Return _, s') => while_True fuel' body s'
      | (Raise e, s') => Some (e, s')
      end
  end.

Definition check_transcription_queue (fuel : nat) (s : DictationApp)
    : option (outcome unit * DictationApp) :=
  match while_True fuel (transcription ← queue_get_nowait;
                         show_transcription transcription) s with
  | None => None
  | Some (QueueEmpty, s') =>
      Some (root_after 100 check_transcription_queue_cb s')
  | Some (e, s') => Some (Raise e, s')
  end.

(** [DictationApp(root)]: the attributes set by [__init__], the widgets as
    [setup_ui] leaves them, the thread started by [load_whisper_model] and
    the first [root.after]. *)
Definition init : DictationApp :=
  {| recording := false;
     frames := [];
     stream := None;
     model := None;
     model_size := "base";
     language := "af";
     transcription_queue := [];
     ui := {| record_btn := StartRecordingText;
              status_label := "Ready to record";
              model_var := "base";
              language_var := "af";
              text_area := "" |};
     world := {| dialogs := [];
                 threads := [load_model_target];
                 timers := [(100, check_transcription_queue_cb)];
                 files := ∅;
                 streams_opened := 0;
                 streams_closed := [];
                 stdout := [];
                 unfinished := ∅ |} |}.

(** The application object a method leaves behind. *)
Definition exec {A} (m : M A) (s : DictationApp) : DictationApp := (m s).2.

(** ** Definitions used in the statements *)

(** The exception that sends [process_audio] into its [except] clause, if
    any: the first of the four calls that fails. *)
Definition process_failure (env : process_env) (s : DictationApp) : option exn :=
  match makedirs_result env, wave_result env, model s, transcribe_result env with
  | Raise e, _, _, _ => Some e
  | Return _, Raise e, _, _ => Some e
  | Return _, Return _, None, _ =>
      Some (Exception "'NoneType' object has no attribute 'transcribe'")
  | Return _, Return _, Some _, Raise e => Some e
  | Return _, Return _, Some _, Return _ => None
  end.

(** Unfolds the monad, so that a method applied to an application object
    shows the [match]es on what it reads there. *)
Ltac unfold_monad := cbv [mbind M_bind mret M_ret get try_except raise pass].

(** The application once the thread of [load_whisper_model] has loaded the
    default model. *)
Definition ready : DictationApp := exec (load_model (Return ())) init.

Definition chunk_a : bytes := ["001"; "000"; "002"; "000"]%byte.
Definition chunk_b : bytes := ["003"; "000"]%byte.

(** A session in progress that has captured [chunk_a]. *)
Definition in_session : DictationApp :=
  exec (record_audio [Return chunk_a]) (exec (start_recording (Return ())) ready).

(** A string made of white space only. *)
Definition blank (t : string) : Prop :=
  Forall (fun c => isspace c = true) (list_ascii_of_string t).

(** A string that neither starts nor ends with white space. *)
Definition trimmed (t : string) : Prop :=
  let l := list_ascii_of_string t in
  (∀ c, head l = Some c → isspace c = false)
  ∧ (∀ c, last l = Some c → isspace c = false).

(** The text [show_transcription] inserts for an item that is not an error:
    a blank line first when the text area holds more than white space. *)
Definition inserted_text (area item : string) : string :=
  if decide (strip (area +:+ LF) ≠ "") then LF +:+ LF +:+ item else item.

(** The items of the queue shown one after the other, first in first. *)
Definition show_all (items : list string) (s : DictationApp) : DictationApp :=
  fold_left (fun st item => exec (show_transcription item) st) items s.

Definition poll_body : M unit :=
  transcription ← queue_get_nowait; show_transcription transcription.

(** The two kinds of result, as the consumer tells them apart: an item of
    the queue is a failure exactly when it starts with ["Error:"]. *)
Inductive result : Type :=
| Ok (text : string)
| Err (message : string).

Definition as_result (item : string) : result :=
  if startswith item "Error:" then Err item else Ok item.

(** The session of [in_session] once stopped. *)
Definition stopped : DictationApp := exec (stop_recording (Return ())) in_session.

(** A transcription that succeeds with a text starting with "Error:". *)
Definition env_error_text : process_env :=
  {| now := 1700000000200000; makedirs_result := Return ();
     wave_result := Return (); transcribe_result := Return " Error: geen klank " |}.

(** Samples in a chunk, as [wave] counts them: bytes over sample width
    times channels. *)
Definition samples (data : bytes) : Z :=
  Z.of_nat (length data) / (sample_size_paInt16 * channels).

(** A chunk made of whole samples. *)
Definition whole_samples (data : bytes) : Prop :=
  Z.of_nat (length data) mod (sample_size_paInt16 * channels) = 0.

Definition total (l : list Z) : Z := foldr Z.add 0 l.

(** The artifact [process_audio] writes from a buffer. *)
Definition artifact (buffer : list bytes) : Wave_write :=
  {| nchannels := channels; sampwidth := sample_size_paInt16; framerate := rate;
     nframes := samples (concat buffer); wave_data := concat buffer |}.

(** Two clock readings 0.5 s apart within one second. *)
Definition env_first : process_env :=
  {| now := 1700000000200000; makedirs_result := Return ();
     wave_result := Return (); transcribe_result := Return "een" |}.



(** ** The remaining methods and the event loop *)

Definition messagebox_showinfo (title message : string) : M unit :=
  with_world (fun w => set_dialogs (dialogs w ++ [ShowInfo title message]) w).

(** [clear_text]: [self.text_area.delete("1.0", tk.END)]. *)
Definition clear_text : M unit := with_ui (set_text_area "").

(** [copy_all] and [save_text] also act on the clipboard and on the text
    files of the user, kept beside the application object. *)
Record Desktop : Type := {
  app : DictationApp;
  clipboard : string;
  documents : gmap string string;
}.

Definition set_app (v : DictationApp) (d : Desktop) : Desktop :=
  {| app := v; clipboard := clipboard d; documents := documents d |}.
Definition set_clipboard (v : string) (d : Desktop) : Desktop :=
  {| app := app d; clipboard := v; documents := documents d |}.
Definition set_documents (v : gmap string string) (d : Desktop) : Desktop :=
  {| app := app d; clipboard := clipboard d; documents := v |}.

(** A method of the application object run on the desktop. *)
Definition in_app (m : M unit) (d : Desktop) : outcome unit * Desktop :=
  let (r, a) := m (app d) in (r, set_app a d).

(** [self.root.clipboard_clear()] and [self.root.clipboard_append(text)] *)
Definition clipboard_clear (d : Desktop) : Desktop := set_clipboard "" d.
Definition clipboard_append (text : string) (d : Desktop) : Desktop :=
  set_clipboard (clipboard d +:+ text) d.

Definition copy_all (d : Desktop) : outcome unit * Desktop :=
  let text := strip (text_area (ui (app d)) +:+ LF) in
  if decide (text ≠ "") then
    in_app (messagebox_showinfo "Success" "Text copied to clipboard!")
      (clipboard_append text (clipboard_clear d))
  else
    in_app (messagebox_showwarning "Warning" "No text to copy.") d.

(** [save_text]; [answer] is the name [filedialog.asksaveasfilename]
    returns, empty when the dialog is cancelled (its arguments only preset
    the dialog), and [fs] says whether the file could be written.  A
    failure may come from [open] itself or after it, when the file has
    already been created or truncated: the name is then noted in
    [unfinished], and [documents] keeps the files written completely. *)
Definition save_text (answer : string) (fs : outcome unit) (d : Desktop)
    : outcome unit * Desktop :=
  let text := strip (text_area (ui (app d)) +:+ LF) in
  if decide (text = "") then
    in_app (messagebox_showwarning "Warning" "No text to save.") d
  else if decide (answer ≠ "") then
    match fs with
    | Return _ =>
        in_app (with_world (fun w => set_unfinished (unfinished w ∖ {[answer]}) w);;
                messagebox_showinfo "Success" ("Text saved to " +:+ answer))
          (set_documents (<[answer := text]> (documents d)) d)
    | Raise e =>
        in_app (with_world (fun w => set_unfinished ({[answer]} ∪ unfinished w) w);;
                messagebox_showerror "Error" ("Failed to save file: " +:+ str e)) d
    end
  else (Return (), d).

(** What can happen to the application: the handlers Tk calls, the user
    typing in the text area, the timer of [root.after], and one run of the
    body of a thread (for [record_audio], of some turns of its loop; for
    [load_model], of the whole body or of one of its two parts, a return
    being that of a call made for some size).  Events are not checked
    against the threads started or the timers pending, so every behaviour
    of the program is among the runs below. *)
Inductive event : Type :=
| Click (device : outcome unit)
| SelectModel (size : string)
| SelectLanguage (lang : string)
| ClearText
| Edit (text : string)
| Timer
| LoadModelThread (engine : outcome unit)
| RecordAudioThread (device : list (outcome bytes))
| ProcessAudioThread (env : process_env)
| LoadModelCalls
| LoadModelReturns (size : string) (engine : outcome unit).

(** The timer callback, given one turn of fuel more than there are items. *)
Definition poll (s : DictationApp) : DictationApp :=
  match check_transcription_queue (S (length (transcription_queue s))) s with
  | Some (_, s') => s'
  | None => s
  end.

(** The application after an event; an exception that leaves a handler is
    reported by Tk and the main loop goes on. *)
Definition step (e : event) (s : DictationApp) : DictationApp :=
  match e with
  | Click device => exec (toggle_recording device) s
  | SelectModel size => exec (select_model size) s
  | SelectLanguage lang => exec (select_language lang) s
  | ClearText => exec clear_text s
  | Edit text => exec (with_ui (set_text_area text)) s
  | Timer => poll s
  | LoadModelThread engine => exec (load_model engine) s
  | RecordAudioThread device => exec (record_audio device) s
  | ProcessAudioThread env => exec (process_audio env) s
  | LoadModelCalls => exec load_model_call s
  | LoadModelReturns size engine => exec (load_model_return size engine) s
  end.

Definition run (events : list event) (s : DictationApp) : DictationApp :=
  fold_left (fun st e => step e st) events s.

(** The chunks a capture loop appends: the reads up to the first that
    fails. *)
Fixpoint reads_before_failure (device : list (outcome bytes)) : list bytes :=
  match device with
  | Return data :: device' => data :: reads_before_failure device'
  | _ => []
  end.

Definition read_fails (d : outcome bytes) : bool :=
  match d with
  | Return _ => false
  | Raise _ => true
  end.

(** A text area in which [show_transcription] finds text. *)
Definition nonblank (area : string) : Prop := strip (area +:+ LF) ≠ "".

(** The items that start with "Error:". *)
Definition is_error (item : string) : bool := startswith item "Error:".

(** Each item preceded by a blank line. *)
Definition blank_line_before (items : list string) : string :=
  foldr (fun item acc => LF +:+ LF +:+ item +:+ acc) "" items.

(** The threads of one kind among those started. *)
Definition target_eqb (t u : target) : bool :=
  match t, u with
  | load_model_target, load_model_target
  | record_audio_target, record_audio_target
  | process_audio_target, process_audio_target => true
  | _, _ => false
  end.

Definition started (t : target) (s : DictationApp) : nat :=
  length (List.filter (target_eqb t) (threads (world s))).

(** What the handlers keep true: the record button says what
    [self.recording] says, a recording has a stream, [self.stream] is the
    stream opened last, and the combo boxes show the size and the language
    in use. *)
Record consistent (s : DictationApp) : Prop := {
  button_shows_state :
    record_btn (ui s)
    = if recording s then StopRecordingText else StartRecordingText;
  recording_has_stream : recording s = true → stream s ≠ None;
  stream_is_latest :
    match stream s with
    | Some st => S (stream_id st) = streams_opened (world s)
    | None => streams_opened (world s) = 0%nat
    end;
  combo_boxes_agree :
    model_var (ui s) = model_size s ∧ language_var (ui s) = language s;
}.

(** The bookkeeping of sessions: a capture thread per stream opened, a
    transcription worker per stream closed, and no more streams closed (or
    in use) than opened. *)
Record accounted (s : DictationApp) : Prop := {
  capture_per_stream : started record_audio_target s = streams_opened (world s);
  worker_per_close :
    started process_audio_target s = length (streams_closed (world s));
  closed_were_opened :
    (length (streams_closed (world s)) + (if recording s then 1 else 0)
     ≤ streams_opened (world s))%nat;
}.

(** The attributes, widgets and counters that only the handlers and the
    model loader write. *)
Definition control (s : DictationApp) :=
  (recording s, stream s, model s, model_size s, language s,
   (record_btn (ui s), model_var (ui s), language_var (ui s)),
   (threads (world s), streams_opened (world s), streams_closed (world s))).

(** The events other than a click on the record button. *)
Definition is_click (e : event) : bool :=
  match e with
  | Click _ => true
  | _ => false
  end.

(** The chunks the capture loop appends in the course of some events, while
    a recording is in progress on a stream. *)
Definition appended_by (e : event) : list bytes :=
  match e with
  | RecordAudioThread device => reads_before_failure device
  | _ => []
  end.

Definition appended (events : list event) : list bytes :=
  concat (map appended_by events).

(** * Properties *)

(** ** Starting a recording *)

Section StartRecording.

Variable device : outcome unit.
Variable s : DictationApp.

(** With a model loaded and the device opening, [start_recording] begins a
    session whatever [self.recording] was: empty buffer, new stream, one
    more capture thread, no dialog. *)
Lemma start_recording_opens (m : Whisper) :
  model s = Some m → device = Return () →
  start_recording device s =
    (Return (),
     exec (assign (set_frames []);;
           with_world (set_streams_opened (S (streams_opened (world s))));;
           assign (set_stream (Some {| stream_id := streams_opened (world s) |}));;
           assign (set_recording true);;
           record_btn_config StopRecordingText;;
           status_label_config "Recording... Click stop when finished";;
           thread_start record_audio_target) s).
Proof.
  intros Hm ->. unfold start_recording, exec.
  cbv [mbind M_bind get]. rewrite Hm. reflexivity.
Qed.

(** With a model loaded and the device refusing, the buffer has already
    been emptied; the failure is shown and nothing else changes. *)
Lemma start_recording_device_error (m : Whisper) (e : exn) :
  model s = Some m → device = Raise e →
  start_recording device s =
    (Return (),
     exec (assign (set_frames []);;
           messagebox_showerror "Error"
             ("Failed to start recording: " +:+ str e)) s).
Proof.
  intros Hm ->. unfold start_recording, exec.
  cbv [mbind M_bind get]. rewrite Hm. reflexivity.
Qed.

Lemma start_recording_not_loaded :
  model s = None →
  start_recording device s =
    (Return (),
     exec (messagebox_showwarning "Warning"
             "Please wait for the model to load first.") s).
Proof.
  intros Hm. unfold start_recording, exec.
  cbv [mbind M_bind get]. rewrite Hm. reflexivity.
Qed.

(** [start_recording] never raises and never clears [self.recording]. *)
Lemma start_recording_returns :
  (start_recording device s).1 = Return ().
Proof.
  unfold start_recording. cbv [mbind M_bind get].
  destruct (model s); [destruct device|]; reflexivity.
Qed.

Lemma start_recording_keeps_recording :
  recording s = true → recording (exec (start_recording device) s) = true.
Proof.
  intros Hr. unfold start_recording, exec. cbv [mbind M_bind get].
  destruct (model s); [destruct device|]; simpl; auto.
Qed.

End StartRecording.

(** ** Stopping, and the transcription worker *)

Section StopRecording.

Variable device : outcome unit.
Variable s : DictationApp.

(** [stop_recording] does not look at [self.recording]: it clears it,
    closes the stream object if there is one and starts the worker.  Only
    a failing close leaves the method early, with the exception. *)
Lemma stop_recording_spec :
  stop_recording device s =
    match stream s, device with
    | Some st, Raise e =>
        (Raise e,
         exec (assign (set_recording false);;
               record_btn_config StartRecordingText;;
               status_label_config "Processing audio...") s)
    | Some st, Return _ =>
        (Return (),
         exec (assign (set_recording false);;
               record_btn_config StartRecordingText;;
               status_label_config "Processing audio...";;
               with_world (fun w => set_streams_closed (streams_closed w ++ [st]) w);;
               thread_start process_audio_target) s)
    | None, _ =>
        (Return (),
         exec (assign (set_recording false);;
               record_btn_config StartRecordingText;;
               status_label_config "Processing audio...";;
               thread_start process_audio_target) s)
    end.
Proof.
  unfold stop_recording, exec. unfold_monad. simpl.
  destruct (stream s); [destruct device|]; reflexivity.
Qed.

(** When the close goes through (or there is nothing to close) the worker
    is started on the buffer as it is. *)
Lemma stop_recording_dispatches :
  stream s = None ∨ device = Return () →
  let s' := exec (stop_recording device) s in
  (stop_recording device s).1 = Return ()
  ∧ recording s' = false
  ∧ frames s' = frames s
  ∧ model s' = model s
  ∧ language s' = language s
  ∧ transcription_queue s' = transcription_queue s
  ∧ stream s' = stream s
  ∧ streams_opened (world s') = streams_opened (world s)
  ∧ files (world s') = files (world s)
  ∧ threads (world s') = threads (world s) ++ [process_audio_target]
  ∧ status_label (ui s') = "Processing audio...".
Proof.
  intros H. unfold exec. rewrite stop_recording_spec.
  destruct (stream s) eqn:Hst.
  - destruct H as [H | ->]; [discriminate|]. simpl. rewrite Hst. tauto.
  - simpl. rewrite Hst. tauto.
Qed.

End StopRecording.

Lemma toggle_recording_spec (device : outcome unit) (s : DictationApp) :
  toggle_recording device s =
    if recording s then stop_recording device s else start_recording device s.
Proof.
  unfold toggle_recording. unfold_monad. destruct (recording s); reflexivity.
Qed.

Section ProcessAudio.

Variable env : process_env.
Variable s : DictationApp.

(** The worker returns normally and puts exactly one item. *)
Lemma process_audio_puts_one :
  ∃ item,
    (process_audio env s).1 = Return ()
    ∧ transcription_queue (exec (process_audio env) s)
      = transcription_queue s ++ [item].
Proof.
  unfold process_audio, exec, os_makedirs, wave_write, model_transcribe.
  unfold_monad.
  destruct (makedirs_result env); [destruct (wave_result env)|]; simpl;
    [destruct (model s); [destruct (transcribe_result env)|]|..];
    eexists; split; reflexivity.
Qed.

(** All four calls succeed: the artifact is written and the stripped text
    is put. *)
Lemma process_audio_success (m : Whisper) (text : string) :
  makedirs_result env = Return () → wave_result env = Return () →
  model s = Some m → transcribe_result env = Return text →
  process_audio env s =
    (Return (),
     exec (wave_write (temp_filename (now env)) channels sample_size_paInt16
             rate (concat (frames s)) (Return ());;
           queue_put (strip text)) s).
Proof.
  intros Hd Hw Hm Ht.
  unfold process_audio, exec, os_makedirs, model_transcribe.
  rewrite Hd, Hw, Ht. unfold_monad. simpl. rewrite Hm. reflexivity.
Qed.

(** A call fails: the item put is ["Error: "] followed by [str(e)], after
    [e] is printed. *)
Lemma process_audio_failure (e : exn) :
  process_failure env s = Some e →
  transcription_queue (exec (process_audio env) s)
    = transcription_queue s ++ ["Error: " +:+ str e]
  ∧ stdout (world (exec (process_audio env) s))
    = stdout (world s) ++ [str e].
Proof.
  unfold process_failure, process_audio, exec, os_makedirs, wave_write,
    model_transcribe.
  unfold_monad.
  destruct (makedirs_result env) as [[]|]; [destruct (wave_result env) as [[]|]|];
    simpl; [destruct (model s); [destruct (transcribe_result env)|]|..];
    simpl; intros [=]; subst; split; reflexivity.
Qed.

(** The artifact is written whenever the directory and the file can be,
    before the model is looked at. *)
Lemma process_audio_artifact :
  makedirs_result env = Return () → wave_result env = Return () →
  files (world (exec (process_audio env) s))
    = <[temp_filename (now env) :=
          {| nchannels := channels; sampwidth := sample_size_paInt16;
             framerate := rate;
             nframes := Z.of_nat (length (concat (frames s)))
                        / (sample_size_paInt16 * channels);
             wave_data := concat (frames s) |}]> (files (world s)).
Proof.
  intros Hd Hw.
  unfold process_audio, exec, os_makedirs, model_transcribe.
  rewrite Hd, Hw. unfold_monad. simpl.
  destruct (model s); [destruct (transcribe_result env)|]; reflexivity.
Qed.

End ProcessAudio.

(** ** The recording state machine *)

(** C7. While no model is loaded, [start_recording] only shows the warning
    "Please wait for the model to load first.": the buffer, the stream, the
    number of streams opened, the threads and [self.recording] are what they
    were, so an idle application stays idle. *)
Theorem start_recording_rejected_until_model_loaded
    (device : outcome unit) (s : DictationApp) :
  model s = None →
  let s' := exec (start_recording device) s in
  start_recording device s =
    (Return (),
     exec (messagebox_showwarning "Warning"
             "Please wait for the model to load first.") s)
  ∧ dialogs (world s')
    = dialogs (world s)
      ++ [ShowWarning "Warning" "Please wait for the model to load first."]
  ∧ frames s' = frames s
  ∧ stream s' = stream s
  ∧ streams_opened (world s') = streams_opened (world s)
  ∧ threads (world s') = threads (world s)
  ∧ recording s' = recording s
  ∧ (recording s = false → recording s' = false).
Proof.
  intros Hm s'. subst s'. unfold exec at 1 2 3 4 5 6 7 8.
  rewrite (start_recording_not_loaded device s Hm). simpl.
  repeat split; auto.
Qed.

Lemma start_recording_rejected_until_model_loaded_witness :
  model init = None
  ∧ recording (exec (start_recording (Return ())) init) = false
  ∧ frames (exec (start_recording (Return ())) init) = [].
Proof.
  split; [reflexivity|].
  destruct (start_recording_rejected_until_model_loaded (Return ()) init)
    as (_ & _ & Hf & _ & _ & _ & _ & Hr); [reflexivity|].
  split; [apply Hr; reflexivity | exact Hf].
Defined.

(** C1, as stated, fails: in a session that has captured one chunk, a second
    [start_recording] shows no dialog, replaces the buffer by an empty one,
    opens a second stream and starts a second capture thread. *)
Lemma start_recording_again_restarts :
  let s' := exec (start_recording (Return ())) in_session in
  recording in_session = true
  ∧ frames in_session = [chunk_a]
  ∧ stream in_session = Some {| stream_id := 0 |}
  ∧ streams_opened (world in_session) = 1%nat
  ∧ frames s' = []
  ∧ stream s' = Some {| stream_id := 1 |}
  ∧ streams_opened (world s') = 2%nat
  ∧ dialogs (world s') = dialogs (world in_session)
  ∧ threads (world s') = threads (world in_session) ++ [record_audio_target]
  ∧ recording s' = true.
Proof. vm_compute. repeat split. Qed.

(** C1, amended.  While a recording is in progress the button handler
    [toggle_recording] runs [stop_recording], never [start_recording].
    [start_recording] itself has no check of [self.recording]; called in such
    a state it returns normally and leaves [self.recording] set, and
    - with no model loaded it only shows the "please wait" warning;
    - with a model loaded and the device opening it shows nothing, empties
      the buffer, opens a new stream and starts one more capture thread;
    - with a model loaded and the device failing it empties the buffer and
      shows the error, opening no stream and starting no thread. *)
Theorem start_recording_while_recording
    (device : outcome unit) (s : DictationApp) :
  recording s = true →
  let s' := exec (start_recording device) s in
  toggle_recording device s = stop_recording device s
  ∧ (start_recording device s).1 = Return ()
  ∧ recording s' = true
  ∧ (model s = None →
     s' = exec (messagebox_showwarning "Warning"
                  "Please wait for the model to load first.") s)
  ∧ (model s ≠ None → device = Return () →
     frames s' = []
     ∧ stream s' = Some {| stream_id := streams_opened (world s) |}
     ∧ streams_opened (world s') = S (streams_opened (world s))
     ∧ threads (world s') = threads (world s) ++ [record_audio_target]
     ∧ dialogs (world s') = dialogs (world s))
  ∧ (∀ e, model s ≠ None → device = Raise e →
     frames s' = []
     ∧ stream s' = stream s
     ∧ streams_opened (world s') = streams_opened (world s)
     ∧ threads (world s') = threads (world s)
     ∧ dialogs (world s')
       = dialogs (world s)
         ++ [ShowError "Error" ("Failed to start recording: " +:+ str e)]).
Proof.
  intros Hr s'. subst s'.
  split; [rewrite toggle_recording_spec, Hr; reflexivity|].
  split; [apply start_recording_returns|].
  split; [apply start_recording_keeps_recording, Hr|].
  split; [|split].
  - intros Hm. unfold exec at 1.
    rewrite (start_recording_not_loaded device s Hm). reflexivity.
  - intros Hm Hd. destruct (model s) as [m|] eqn:Em; [|congruence].
    unfold exec at 1 2 3 4 5.
    rewrite (start_recording_opens device s m Em Hd). simpl. tauto.
  - intros e Hm Hd. destruct (model s) as [m|] eqn:Em; [|congruence].
    unfold exec at 1 2 3 4 5.
    rewrite (start_recording_device_error device s m e Em Hd). simpl. tauto.
Qed.

Lemma start_recording_while_recording_witness :
  recording in_session = true
  ∧ toggle_recording (Return ()) in_session = stop_recording (Return ()) in_session
  ∧ frames (exec (start_recording (Return ())) in_session) = [].
Proof.
  split; [reflexivity|].
  destruct (start_recording_while_recording (Return ()) in_session)
    as (Ht & _ & _ & _ & Ho & _); [reflexivity|].
  split; [exact Ht|].
  apply Ho; [discriminate | reflexivity].
Defined.

(** C2, as stated, fails: on the idle application with its model loaded,
    [stop_recording] sets the status to "Processing audio..." and starts a
    transcription worker; the worker writes an artifact from the empty
    buffer and puts a result. *)
Lemma stop_recording_when_idle_dispatches :
  let s' := exec (stop_recording (Return ())) ready in
  let env := {| now := 1700000000200000; makedirs_result := Return ();
                wave_result := Return ();
                transcribe_result := Return " dankie " |} in
  let s'' := exec (process_audio env) s' in
  recording ready = false
  ∧ transcription_queue ready = []
  ∧ threads (world s') = threads (world ready) ++ [process_audio_target]
  ∧ status_label (ui s') = "Processing audio..."
  ∧ transcription_queue s'' = ["dankie"]
  ∧ files (world s'') !! "recordings/1700000000.wav"
    = Some {| nchannels := 1; sampwidth := 2; framerate := 16000;
              nframes := 0; wave_data := [] |}.
Proof. vm_compute. repeat split. Qed.

(** C2, amended.  While no recording is in progress the button handler
    [toggle_recording] runs [start_recording], never [stop_recording].
    [stop_recording] itself has no check of [self.recording]; called in such
    a state (the stream object of an earlier session, if any, closing without
    error) it returns normally, creates no capture session and leaves the
    application idle with its buffer and its stream attribute as they were,
    but it sets the status to "Processing audio..." and starts a
    transcription worker on that buffer, and the worker puts exactly one
    result. *)
Theorem stop_recording_while_idle
    (device : outcome unit) (env : process_env) (s : DictationApp) :
  recording s = false →
  stream s = None ∨ device = Return () →
  let s' := exec (stop_recording device) s in
  toggle_recording device s = start_recording device s
  ∧ (stop_recording device s).1 = Return ()
  ∧ recording s' = false
  ∧ frames s' = frames s
  ∧ stream s' = stream s
  ∧ streams_opened (world s') = streams_opened (world s)
  ∧ status_label (ui s') = "Processing audio..."
  ∧ threads (world s') = threads (world s) ++ [process_audio_target]
  ∧ ∃ item,
      (process_audio env s').1 = Return ()
      ∧ transcription_queue (exec (process_audio env) s')
        = transcription_queue s ++ [item].
Proof.
  intros Hr Hc s'.
  destruct (stop_recording_dispatches device s Hc)
    as (H1 & H2 & H3 & _ & _ & H6 & H7 & H8 & _ & H10 & H11).
  fold s' in H2, H3, H6, H7, H8, H10, H11.
  split; [rewrite toggle_recording_spec, Hr; reflexivity|].
  repeat (split; [assumption|]).
  destruct (process_audio_puts_one env s') as (item & Hi1 & Hi2).
  exists item. rewrite <- H6. auto.
Qed.

Lemma stop_recording_while_idle_witness :
  recording init = false
  ∧ stream init = None
  ∧ threads (world (exec (stop_recording (Return ())) init))
    = [load_model_target; process_audio_target].
Proof.
  split; [reflexivity|]. split; [reflexivity|].
  destruct (stop_recording_while_idle (Return ())
              {| now := 0; makedirs_result := Return ();
                 wave_result := Return (); transcribe_result := Return "" |}
              init)
    as (_ & _ & _ & _ & _ & _ & _ & Ht & _); [reflexivity | left; reflexivity |].
  exact Ht.
Defined.

(** ** [str.strip] and [str.startswith] *)

Section Strip.

Lemma lstrip_chars_split (l : list ascii) :
  ∃ pre, l = pre ++ lstrip_chars l ∧ Forall (fun c => isspace c = true) pre.
Proof.
  induction l as [|c l (pre & IH & Hpre)]; simpl.
  - exists []. split; [reflexivity | constructor].
  - destruct (isspace c) eqn:Hc.
    + exists (c :: pre). split; [simpl; congruence | constructor; assumption].
    + exists []. split; [reflexivity | constructor].
Qed.

Lemma lstrip_chars_head (l : list ascii) (c : ascii) :
  head (lstrip_chars l) = Some c → isspace c = false.
Proof.
  induction l as [|a l IH]; simpl; [discriminate|].
  destruct (isspace a) eqn:Ha; [assumption|].
  simpl. intros [= <-]. exact Ha.
Qed.

Lemma strip_chars_split (l : list ascii) :
  ∃ pre post,
    l = pre ++ strip_chars l ++ post
    ∧ Forall (fun c => isspace c = true) pre
    ∧ Forall (fun c => isspace c = true) post.
Proof.
  unfold strip_chars.
  destruct (lstrip_chars_split l) as (pre & Hl & Hpre).
  destruct (lstrip_chars_split (reverse (lstrip_chars l))) as (q & Hr & Hq).
  exists pre, (reverse q). split; [|split].
  - rewrite <- reverse_app, <- Hr, reverse_involutive. exact Hl.
  - exact Hpre.
  - apply Forall_reverse. exact Hq.
Qed.

Lemma strip_chars_head (l : list ascii) (c : ascii) :
  head (strip_chars l) = Some c → isspace c = false.
Proof.
  unfold strip_chars. rewrite head_reverse. intros Hlast.
  destruct (lstrip_chars_split (reverse (lstrip_chars l))) as (q & Hr & _).
  apply (lstrip_chars_head l).
  rewrite <- last_reverse, Hr, last_app, Hlast. reflexivity.
Qed.

Lemma strip_chars_last (l : list ascii) (c : ascii) :
  last (strip_chars l) = Some c → isspace c = false.
Proof.
  unfold strip_chars. rewrite last_reverse. apply lstrip_chars_head.
Qed.

Lemma string_of_list_ascii_app (l1 l2 : list ascii) :
  string_of_list_ascii (l1 ++ l2)
  = string_of_list_ascii l1 +:+ string_of_list_ascii l2.
Proof. induction l1 as [|c l1 IH]; simpl; [reflexivity | now rewrite IH]. Qed.

Lemma strip_trimmed (t : string) : trimmed (strip t).
Proof.
  unfold trimmed, strip. rewrite list_ascii_of_string_of_list_ascii.
  split; [apply strip_chars_head | apply strip_chars_last].
Qed.

(** [strip] removes a blank prefix and a blank suffix, nothing else. *)
Lemma strip_split (t : string) :
  ∃ pre post, t = pre +:+ strip t +:+ post ∧ blank pre ∧ blank post.
Proof.
  destruct (strip_chars_split (list_ascii_of_string t))
    as (pre & post & Ht & Hpre & Hpost).
  exists (string_of_list_ascii pre), (string_of_list_ascii post).
  unfold blank, strip. rewrite !list_ascii_of_string_of_list_ascii.
  split; [|split; assumption].
  rewrite <- !string_of_list_ascii_app, <- Ht.
  symmetry. apply string_of_list_ascii_of_string.
Qed.

(** An item put by the [except] clause of [process_audio] starts with
    ["Error:"]. *)
Lemma startswith_Error (message : string) :
  startswith ("Error: " +:+ message) "Error:" = true.
Proof. unfold startswith. simpl. destruct message; reflexivity. Qed.

End Strip.

(** ** The polling consumer *)

Section ShowTranscription.

Variable item : string.
Variable s : DictationApp.

Lemma show_transcription_error :
  startswith item "Error:" = true →
  show_transcription item s =
    (Return (),
     exec (messagebox_showerror "Transcription Error" item;;
           status_label_config "Transcription failed") s).
Proof. intros H. unfold show_transcription. rewrite H. reflexivity. Qed.

Lemma show_transcription_text :
  startswith item "Error:" = false →
  show_transcription item s =
    (Return (),
     exec (text_area_insert_END (inserted_text (text_area (ui s)) item);;
           status_label_config
             "Transcription complete - Ready for next recording") s).
Proof.
  intros H. unfold show_transcription, inserted_text, exec. rewrite H.
  unfold text_area_get. unfold_monad.
  destruct (decide (strip (text_area (ui s) +:+ LF) ≠ "")); reflexivity.
Qed.

Lemma show_transcription_returns :
  (show_transcription item s).1 = Return ().
Proof.
  destruct (startswith item "Error:") eqn:H.
  - rewrite show_transcription_error by assumption. reflexivity.
  - rewrite show_transcription_text by assumption. reflexivity.
Qed.

End ShowTranscription.

(** [as_result] is the reading [show_transcription] makes of an item. *)
Lemma show_transcription_as_result (item : string) (s : DictationApp) :
  show_transcription item s
  = match as_result item with
    | Err message =>
        (Return (),
         exec (messagebox_showerror "Transcription Error" message;;
               status_label_config "Transcription failed") s)
    | Ok text =>
        (Return (),
         exec (text_area_insert_END (inserted_text (text_area (ui s)) text);;
               status_label_config
                 "Transcription complete - Ready for next recording") s)
    end.
Proof.
  unfold as_result. destruct (startswith item "Error:") eqn:H.
  - apply show_transcription_error, H.
  - apply show_transcription_text, H.
Qed.

(** Showing an item and assigning the queue do not interfere. *)
Lemma show_transcription_queue (item : string) (q : list string) (s : DictationApp) :
  exec (show_transcription item) (set_transcription_queue q s)
  = set_transcription_queue q (exec (show_transcription item) s).
Proof.
  unfold exec. destruct (startswith item "Error:") eqn:H.
  - rewrite !show_transcription_error by assumption. reflexivity.
  - rewrite !show_transcription_text by assumption. reflexivity.
Qed.

Section Drain.

Lemma set_transcription_queue_same (s : DictationApp) :
  set_transcription_queue (transcription_queue s) s = s.
Proof. destruct s; reflexivity. Qed.

Lemma set_transcription_queue_twice (q q' : list string) (s : DictationApp) :
  set_transcription_queue q (set_transcription_queue q' s)
  = set_transcription_queue q s.
Proof. reflexivity. Qed.

Lemma show_all_queue (items q : list string) (s : DictationApp) :
  show_all items (set_transcription_queue q s)
  = set_transcription_queue q (show_all items s).
Proof.
  revert s. induction items as [|item items IH]; intros s; simpl; [reflexivity|].
  rewrite show_transcription_queue. apply IH.
Qed.

(** With more fuel than items the loop shows every item in order, empties
    the queue and is left by [queue.Empty]. *)
Lemma while_True_drains (items : list string) :
  ∀ (fuel : nat) (s : DictationApp),
    transcription_queue s = items →
    (length items < fuel)%nat →
    while_True fuel poll_body s
    = Some (QueueEmpty, set_transcription_queue [] (show_all items s)).
Proof.
  induction items as [|item items IH]; intros fuel s Hq Hfuel;
    (destruct fuel as [|fuel]; [simpl in Hfuel; lia|]);
    simpl; unfold poll_body at 1, queue_get_nowait; unfold_monad; rewrite Hq.
  - rewrite <- Hq, set_transcription_queue_same. reflexivity.
  - pose proof (show_transcription_returns item (set_transcription_queue items s)) as Hret.
    destruct (show_transcription item (set_transcription_queue items s))
      as [r s1] eqn:Hshow.
    simpl in Hret. subst r.
    assert (Hs1 : s1 = exec (show_transcription item) (set_transcription_queue items s))
      by (unfold exec; rewrite Hshow; reflexivity).
    rewrite (IH fuel s1).
    + rewrite Hs1, show_transcription_queue, show_all_queue. reflexivity.
    + rewrite Hs1, show_transcription_queue. reflexivity.
    + simpl in Hfuel. lia.
Qed.

Lemma check_transcription_queue_enough_fuel (fuel : nat) (s : DictationApp) :
  (length (transcription_queue s) < fuel)%nat →
  check_transcription_queue fuel s
  = Some (Return (),
          exec (root_after 100 check_transcription_queue_cb)
            (set_transcription_queue [] (show_all (transcription_queue s) s))).
Proof.
  intros Hfuel. unfold check_transcription_queue.
  change (transcription ← queue_get_nowait; show_transcription transcription)
    with poll_body.
  rewrite (while_True_drains (transcription_queue s) fuel s eq_refl Hfuel).
  reflexivity.
Qed.

End Drain.

(** C5. Items are queued in the order in which they are put.  A poll with
    enough fuel for the items queued returns normally having shown every
    queued item, first put first, and leaves the queue empty; it then
    schedules the next poll after 100 ms.  On an empty queue it changes
    nothing but that: widgets, dialogs and every attribute are as before. *)
Theorem check_transcription_queue_drains (fuel : nat) (s : DictationApp) :
  (length (transcription_queue s) < fuel)%nat →
  (∀ a b, transcription_queue (exec (queue_put a;; queue_put b) s)
          = transcription_queue s ++ [a; b])
  ∧ check_transcription_queue fuel s
    = Some (Return (),
            exec (root_after 100 check_transcription_queue_cb)
              (set_transcription_queue [] (show_all (transcription_queue s) s)))
  ∧ (transcription_queue s = [] →
     check_transcription_queue fuel s
     = Some (Return (), exec (root_after 100 check_transcription_queue_cb) s)
     ∧ ∀ s', check_transcription_queue fuel s = Some (Return (), s') →
         ui s' = ui s
         ∧ dialogs (world s') = dialogs (world s)
         ∧ timers (world s')
           = timers (world s) ++ [(100, check_transcription_queue_cb)]).
Proof.
  intros Hfuel.
  pose proof (check_transcription_queue_enough_fuel fuel s Hfuel) as Hgen.
  split; [intros a b; simpl; rewrite <- app_assoc; reflexivity|].
  split; [exact Hgen|].
  intros Hq.
  assert (Hempty : check_transcription_queue fuel s
    = Some (Return (), exec (root_after 100 check_transcription_queue_cb) s)).
  { rewrite Hgen, Hq. simpl. rewrite <- Hq, set_transcription_queue_same.
    reflexivity. }
  split; [exact Hempty|].
  intros s' Hs'. rewrite Hempty in Hs'. injection Hs' as <-.
  repeat split.
Qed.

Lemma check_transcription_queue_drains_witness :
  let s := set_transcription_queue ["een"; "Error: b"; "twee"] ready in
  (length (transcription_queue s) < 4)%nat
  ∧ ∃ s', check_transcription_queue 4 s = Some (Return (), s')
          ∧ transcription_queue s' = []
          ∧ text_area (ui s') = "een" +:+ LF +:+ LF +:+ "twee"
          ∧ dialogs (world s') = [ShowError "Transcription Error" "Error: b"].
Proof.
  intros s. split; [vm_compute; lia|].
  destruct (check_transcription_queue_drains 4 s) as (_ & H & _); [vm_compute; lia|].
  eexists. split; [exact H|]. vm_compute. repeat split.
Defined.

(** ** Results and their reading *)

(** C10. [show_transcription] takes the error branch exactly for the items
    that start with "Error:": such an item is shown in an error dialog, the
    status becomes "Transcription failed" and the text area is untouched;
    any other item is inserted in the text area and no dialog is shown.
    Hence when every step of [process_audio] succeeds and the stripped text
    starts with "Error:", the item put is that text, and a poll of the
    (until then empty) queue shows it as an error and leaves the text area
    as it was. *)
Theorem error_prefix_decides_the_branch
    (item : string) (env : process_env) (s : DictationApp) :
  (startswith item "Error:" = true →
   dialogs (world (exec (show_transcription item) s))
   = dialogs (world s) ++ [ShowError "Transcription Error" item]
   ∧ status_label (ui (exec (show_transcription item) s)) = "Transcription failed"
   ∧ text_area (ui (exec (show_transcription item) s)) = text_area (ui s))
  ∧ (startswith item "Error:" = false →
     dialogs (world (exec (show_transcription item) s)) = dialogs (world s)
     ∧ status_label (ui (exec (show_transcription item) s))
       = "Transcription complete - Ready for next recording"
     ∧ text_area (ui (exec (show_transcription item) s))
       = text_area (ui s) +:+ inserted_text (text_area (ui s)) item)
  ∧ (∀ (m : Whisper) (text : string) (fuel : nat),
       makedirs_result env = Return () → wave_result env = Return () →
       model s = Some m → transcribe_result env = Return text →
       startswith (strip text) "Error:" = true →
       transcription_queue s = [] → (1 < fuel)%nat →
       transcription_queue (exec (process_audio env) s) = [strip text]
       ∧ ∃ s', check_transcription_queue fuel (exec (process_audio env) s)
               = Some (Return (), s')
               ∧ dialogs (world s')
                 = dialogs (world s)
                   ++ [ShowError "Transcription Error" (strip text)]
               ∧ status_label (ui s') = "Transcription failed"
               ∧ text_area (ui s') = text_area (ui s)
               ∧ transcription_queue s' = []).
Proof.
  split; [|split].
  - intros H. unfold exec. rewrite show_transcription_error by assumption.
    repeat split.
  - intros H. unfold exec. rewrite show_transcription_text by assumption.
    repeat split.
  - intros m text fuel Hd Hw Hm Ht Hp Hq Hfuel.
    assert (Hput : transcription_queue (exec (process_audio env) s) = [strip text]).
    { unfold exec. rewrite (process_audio_success env s m text Hd Hw Hm Ht).
      simpl. rewrite Hq. reflexivity. }
    split; [exact Hput|].
    assert (Hc := check_transcription_queue_enough_fuel fuel
                    (exec (process_audio env) s)).
    rewrite Hput in Hc. specialize (Hc Hfuel).
    eexists. split; [exact Hc|].
    unfold show_all. simpl fold_left. unfold exec.
    rewrite show_transcription_error by assumption.
    rewrite (process_audio_success env s m text Hd Hw Hm Ht).
    repeat split.
Qed.

Lemma error_prefix_decides_the_branch_witness :
  startswith (strip " Error: geen klank ") "Error:" = true
  ∧ transcription_queue stopped = []
  ∧ transcription_queue (exec (process_audio env_error_text) stopped)
    = ["Error: geen klank"]
  ∧ text_area (ui (exec (show_transcription "Error: geen klank") stopped)) = "".
Proof.
  destruct (error_prefix_decides_the_branch "Error: geen klank" env_error_text stopped)
    as (He & _ & Hp).
  split; [reflexivity|]. split; [reflexivity|]. split.
  - apply (Hp {| whisper_name := "base" |} " Error: geen klank " 2%nat);
      solve [reflexivity | vm_compute; lia].
  - destruct He as (_ & _ & Ht); [reflexivity|]. exact Ht.
Defined.

(** C4, as stated, fails: every step of the worker succeeds on the stopped
    session, yet the item it puts is read by the consumer as a failure. *)
Lemma process_audio_success_read_as_failure :
  makedirs_result env_error_text = Return ()
  ∧ wave_result env_error_text = Return ()
  ∧ model stopped = Some {| whisper_name := "base" |}
  ∧ transcribe_result env_error_text = Return " Error: geen klank "
  ∧ process_audio env_error_text stopped
    = (Return (), exec (process_audio env_error_text) stopped)
  ∧ transcription_queue (exec (process_audio env_error_text) stopped)
    = ["Error: geen klank"]
  ∧ as_result "Error: geen klank" = Err "Error: geen klank"
  ∧ as_result "Error: geen klank" ≠ Ok "geen klank"
  ∧ as_result "Error: geen klank" ≠ Ok "Error: geen klank".
Proof. vm_compute. repeat split; discriminate. Qed.

(** C4, amended.  The worker never raises and puts exactly one item per run.
    When the directory, the file, the model and the transcription all
    succeed the item is the recognised text with the white space at both
    ends removed, which the consumer reads as [Ok] unless it starts with
    "Error:".  When any of them fails (the directory or the artifact cannot
    be written, no model is loaded, Whisper raises) the item is "Error: "
    followed by the message of the exception, which the consumer always
    reads as [Err]. *)
Theorem process_audio_puts_exactly_one_result
    (env : process_env) (s : DictationApp) :
  ∃ item,
    process_audio env s = (Return (), exec (process_audio env) s)
    ∧ transcription_queue (exec (process_audio env) s)
      = transcription_queue s ++ [item]
    ∧ (∀ m text,
         makedirs_result env = Return () → wave_result env = Return () →
         model s = Some m → transcribe_result env = Return text →
         item = strip text
         ∧ trimmed item
         ∧ (∃ pre post, text = pre +:+ item +:+ post ∧ blank pre ∧ blank post)
         ∧ (startswith item "Error:" = false → as_result item = Ok item))
    ∧ (∀ e,
         makedirs_result env = Raise e
         ∨ (makedirs_result env = Return () ∧ wave_result env = Raise e)
         ∨ (makedirs_result env = Return () ∧ wave_result env = Return ()
            ∧ model s = None
            ∧ e = Exception "'NoneType' object has no attribute 'transcribe'")
         ∨ (makedirs_result env = Return () ∧ wave_result env = Return ()
            ∧ model s ≠ None ∧ transcribe_result env = Raise e) →
         item = "Error: " +:+ str e
         ∧ as_result item = Err item).
Proof.
  destruct (process_audio_puts_one env s) as (item & Hret & Hput).
  exists item. split; [|split; [exact Hput|split]].
  - unfold exec. destruct (process_audio env s) as [r s']. simpl in Hret.
    subst r. reflexivity.
  - intros m text Hd Hw Hm Ht.
    assert (Hi : item = strip text).
    { unfold exec in Hput.
      rewrite (process_audio_success env s m text Hd Hw Hm Ht) in Hput.
      simpl in Hput. apply app_inv_head in Hput. congruence. }
    subst item. split; [reflexivity|]. split; [apply strip_trimmed|].
    split; [apply strip_split|].
    intros Hp. unfold as_result. rewrite Hp. reflexivity.
  - intros e Hcase.
    assert (Hf : process_failure env s = Some e).
    { unfold process_failure.
      destruct Hcase as [-> | [[-> ->] | [(-> & -> & -> & ->) | (-> & -> & Hm & ->)]]];
        try reflexivity.
      destruct (model s); [reflexivity | congruence]. }
    destruct (process_audio_failure env s e Hf) as [Hq _].
    rewrite Hq in Hput. apply app_inv_head in Hput.
    assert (Hi : item = "Error: " +:+ str e) by congruence.
    subst item. split; [reflexivity|].
    unfold as_result. rewrite startswith_Error. reflexivity.
Qed.

Lemma process_audio_puts_exactly_one_result_witness :
  makedirs_result env_error_text = Return ()
  ∧ model init = None
  ∧ ∃ item,
      transcription_queue (exec (process_audio env_error_text) init) = [item]
      ∧ item = "Error: 'NoneType' object has no attribute 'transcribe'".
Proof.
  split; [reflexivity|]. split; [reflexivity|].
  destruct (process_audio_puts_exactly_one_result env_error_text init)
    as (item & _ & Hq & _ & Hf).
  exists item. split; [exact Hq|].
  apply (Hf (Exception "'NoneType' object has no attribute 'transcribe'")).
  right. right. left. repeat split.
Defined.

(** ** The capture loop and the artifact *)

Section RecordAudio.

Lemma set_frames_same (s : DictationApp) : set_frames (frames s) s = s.
Proof. destruct s; reflexivity. Qed.

Lemma record_audio_iter_appends (data : bytes) (s : DictationApp) :
  recording s = true → stream s ≠ None →
  record_audio_iter (Return data) s
  = (Return Continue, set_frames (frames s ++ [data]) s).
Proof.
  intros Hr Hst. unfold record_audio_iter, stream_read. unfold_monad.
  rewrite Hr. destruct (stream s); [reflexivity | congruence].
Qed.

Lemma record_audio_iter_read_error (e : exn) (s : DictationApp) :
  recording s = true → stream s ≠ None →
  record_audio_iter (Raise e) s
  = (Return Break, exec (print ("Recording error: " +:+ str e)) s).
Proof.
  intros Hr Hst. unfold record_audio_iter, stream_read. unfold_monad.
  rewrite Hr. destruct (stream s); [reflexivity | congruence].
Qed.

(** As long as the reads succeed the loop appends what it reads, in the
    order in which it reads it, and goes on. *)
Lemma record_audio_appends (chunks : list bytes) :
  ∀ s : DictationApp,
    recording s = true → stream s ≠ None →
    record_audio (map Return chunks) s
    = (Return Running, set_frames (frames s ++ chunks) s).
Proof.
  induction chunks as [|c chunks IH]; intros s Hr Hst; simpl.
  - unfold_monad. rewrite Hr, app_nil_r, set_frames_same. reflexivity.
  - unfold_monad. rewrite record_audio_iter_appends by assumption.
    rewrite IH by assumption. simpl. rewrite <- app_assoc. reflexivity.
Qed.

(** A failing read ends the loop: the thread finishes without an
    exception, the failure is printed, the chunks read so far stay in the
    buffer and later answers of the device are not read. *)
Lemma record_audio_read_error (chunks : list bytes) (e : exn)
    (later : list (outcome bytes)) :
  ∀ s : DictationApp,
    recording s = true → stream s ≠ None →
    record_audio (map Return chunks ++ Raise e :: later) s
    = (Return Finished,
       exec (print ("Recording error: " +:+ str e))
         (set_frames (frames s ++ chunks) s)).
Proof.
  induction chunks as [|c chunks IH]; intros s Hr Hst; simpl.
  - unfold_monad. rewrite record_audio_iter_read_error by assumption.
    rewrite app_nil_r, set_frames_same. reflexivity.
  - unfold_monad. rewrite record_audio_iter_appends by assumption.
    rewrite IH by assumption. simpl. rewrite <- app_assoc. reflexivity.
Qed.

Lemma samples_concat (chunks : list bytes) :
  Forall whole_samples chunks →
  samples (concat chunks) = total (map samples chunks).
Proof.
  unfold samples, whole_samples, sample_size_paInt16, channels.
  induction 1 as [|c chunks Hc _ IH]; simpl; [reflexivity|].
  rewrite length_app, Nat2Z.inj_add, <- IH.
  apply Z.div_exact in Hc; [|lia]. rewrite Hc at 1.
  rewrite Z.mul_comm, Z.div_add_l by lia. reflexivity.
Qed.

Lemma length_concat_total (chunks : list bytes) :
  Z.of_nat (length (concat chunks))
  = total (map (fun c => Z.of_nat (length c)) chunks).
Proof.
  induction chunks as [|c chunks IH]; simpl; [reflexivity|].
  rewrite length_app, Nat2Z.inj_add, IH. reflexivity.
Qed.

(** What the worker leaves on disk when the directory and the file can be
    written. *)
Lemma process_audio_writes (env : process_env) (s : DictationApp) :
  makedirs_result env = Return () → wave_result env = Return () →
  files (world (exec (process_audio env) s))
  = <[temp_filename (now env) := artifact (frames s)]> (files (world s)).
Proof. apply process_audio_artifact. Qed.

End RecordAudio.

(** ** The clock as a float *)

Section Timestamp.







(** From 2^34 seconds on the float has too few digits left for the
    microseconds, and the last microsecond of a second is rounded up to the
    next second. *)
Lemma int_timestamp_rounds_up_late :
  int_timestamp (2 ^ 34 * 1000000 + 999999) = 2 ^ 34 + 1
  ∧ int_timestamp (2 ^ 34 * 1000000 + 999998) = 2 ^ 34
  ∧ int_timestamp (2 ^ 34 * 1000000 - 1) = 2 ^ 34 - 1.
Proof. vm_compute. repeat split. Qed.

End Timestamp.

(** ** Artifact names *)

Section TempFilename.

Lemma list_ascii_of_string_app (a b : string) :
  list_ascii_of_string (a +:+ b)
  = list_ascii_of_string a ++ list_ascii_of_string b.
Proof. induction a as [|c a IH]; simpl; [reflexivity | now rewrite IH]. Qed.



End TempFilename.




(** ** Changing the model *)

Section ModelChange.

Variable s : DictationApp.

Lemma on_model_change_same :
  model_var (ui s) = model_size s → on_model_change s = (Return (), s).
Proof.
  intros H. unfold on_model_change. unfold_monad.
  destruct (decide (model_var (ui s) ≠ model_size s)); [first [congruence | contradiction] | reflexivity].
Qed.

Lemma on_model_change_other :
  model_var (ui s) ≠ model_size s →
  on_model_change s
  = (Return (),
     exec (assign (set_model_size (model_var (ui s)));;
           assign (set_model None);;
           thread_start load_model_target) s).
Proof.
  intros H. unfold on_model_change. unfold_monad.
  destruct (decide (model_var (ui s) ≠ model_size s)); [reflexivity | contradiction].
Qed.

(** The thread body loads the size that is selected when it runs. *)
Lemma load_model_loads :
  model (exec (load_model (Return ())) s)
  = Some {| whisper_name := model_size s |}.
Proof. reflexivity. Qed.

End ModelChange.

(** C9. Selecting the size that is already selected changes neither the
    model nor the threads: the loaded instance is kept and no load is
    started.  Selecting another size records it, drops the instance and
    starts one load thread, whose body loads the newly selected size.  In both
    cases selecting the same size once more changes nothing. *)
Theorem select_model_idempotent (size : string) (s : DictationApp) :
  (size = model_size s →
   select_model size s = (Return (), exec (with_ui (set_model_var size)) s)
   ∧ model (exec (select_model size) s) = model s
   ∧ model_size (exec (select_model size) s) = model_size s
   ∧ threads (world (exec (select_model size) s)) = threads (world s))
  ∧ (size ≠ model_size s →
     model (exec (select_model size) s) = None
     ∧ model_size (exec (select_model size) s) = size
     ∧ threads (world (exec (select_model size) s))
       = threads (world s) ++ [load_model_target]
     ∧ model (exec (load_model (Return ())) (exec (select_model size) s))
       = Some {| whisper_name := size |})
  ∧ select_model size (exec (select_model size) s)
    = (Return (), exec (select_model size) s)
  ∧ on_model_change (exec on_model_change s)
    = (Return (), exec on_model_change s).
Proof.
  split; [|split; [|split]].
  - intros ->. unfold select_model, exec, with_ui, assign. unfold_monad.
    rewrite on_model_change_same by reflexivity. repeat split.
  - intros Hne.
    assert (Hsel : select_model size s
      = (Return (),
         exec (with_ui (set_model_var size);;
               assign (set_model_size size);;
               assign (set_model None);;
               thread_start load_model_target) s)).
    { unfold select_model, exec, with_ui, assign. unfold_monad.
      rewrite on_model_change_other by (simpl; congruence). reflexivity. }
    unfold exec at 1 2 3 5. rewrite Hsel. repeat split.
  - unfold select_model, on_model_change, exec, with_ui, assign. unfold_monad.
    simpl. destruct (decide (size ≠ model_size s)); simpl.
    + destruct (decide (size ≠ size)); [first [congruence | contradiction] | reflexivity].
    + destruct (decide (size ≠ model_size s)); [first [congruence | contradiction] | reflexivity].
  - unfold on_model_change, exec, assign. unfold_monad.
    destruct (decide (model_var (ui s) ≠ model_size s)) as [Hne|He]; simpl.
    + destruct (decide (model_var (ui s) ≠ model_var (ui s)));
        [first [congruence | contradiction] | reflexivity].
    + destruct (decide (model_var (ui s) ≠ model_size s));
        [first [congruence | contradiction] | reflexivity].
Qed.

Lemma select_model_idempotent_witness :
  "tiny" ≠ model_size ready
  ∧ model ready = Some {| whisper_name := "base" |}
  ∧ model (exec (select_model "tiny") ready) = None
  ∧ model (exec (select_model "base") ready) = model ready.
Proof.
  destruct (select_model_idempotent "tiny" ready) as (_ & Hother & _).
  destruct (select_model_idempotent "base" ready) as (Hsame & _).
  split; [discriminate|]. split; [reflexivity|]. split.
  - apply Hother. discriminate.
  - apply Hsame. reflexivity.
Defined.

(** ** More on [str.strip] *)

Section Blank.

Lemma lstrip_chars_blank (l : list ascii) :
  Forall (fun c => isspace c = true) l → lstrip_chars l = [].
Proof.
  induction 1 as [|c l Hc _ IH]; simpl; [reflexivity|]. now rewrite Hc.
Qed.

Lemma strip_chars_nil_iff (l : list ascii) :
  strip_chars l = [] ↔ Forall (fun c => isspace c = true) l.
Proof.
  split.
  - intros H. destruct (strip_chars_split l) as (pre & post & Hl & Hpre & Hpost).
    rewrite H in Hl. rewrite Hl. simpl. apply Forall_app. split; assumption.
  - intros H. unfold strip_chars. rewrite (lstrip_chars_blank l H). reflexivity.
Qed.

Lemma string_of_list_ascii_nil_iff (l : list ascii) :
  string_of_list_ascii l = "" ↔ l = [].
Proof. destruct l; simpl; split; congruence. Qed.

Lemma strip_empty_iff (t : string) : strip t = "" ↔ blank t.
Proof.
  unfold strip, blank. rewrite string_of_list_ascii_nil_iff.
  apply strip_chars_nil_iff.
Qed.

Lemma blank_app (a b : string) : blank (a +:+ b) ↔ blank a ∧ blank b.
Proof. unfold blank. rewrite list_ascii_of_string_app. apply Forall_app. Qed.

Lemma blank_LF : blank LF.
Proof. repeat constructor. Qed.

Lemma nonblank_iff (area : string) : nonblank area ↔ ¬ blank area.
Proof.
  unfold nonblank. rewrite strip_empty_iff, blank_app.
  pose proof blank_LF. tauto.
Qed.

Lemma nonblank_app (a b : string) : nonblank a → nonblank (a +:+ b).
Proof. rewrite !nonblank_iff, blank_app. tauto. Qed.

Lemma string_app_nil_r (a : string) : a +:+ "" = a.
Proof.
  induction a as [|c a IH]; [reflexivity|].
  change (String c (a +:+ "") = String c a). congruence.
Qed.

Lemma string_app_assoc (a b c : string) : (a +:+ b) +:+ c = a +:+ (b +:+ c).
Proof.
  induction a as [|x a IH]; [reflexivity|].
  change (String x ((a +:+ b) +:+ c) = String x (a +:+ (b +:+ c))). congruence.
Qed.

End Blank.

(** ** What the timer and the threads leave alone *)

Section Frames.

Lemma show_transcription_control (item : string) (s : DictationApp) :
  control (exec (show_transcription item) s) = control s.
Proof.
  unfold exec. destruct (startswith item "Error:") eqn:H.
  - rewrite show_transcription_error by assumption. reflexivity.
  - rewrite show_transcription_text by assumption. reflexivity.
Qed.

Lemma show_all_control (items : list string) :
  ∀ s, control (show_all items s) = control s.
Proof.
  induction items as [|item items IH]; intros s; simpl; [reflexivity|].
  unfold show_all in IH. rewrite IH. apply show_transcription_control.
Qed.

Lemma poll_spec (s : DictationApp) :
  poll s
  = exec (root_after 100 check_transcription_queue_cb)
      (set_transcription_queue [] (show_all (transcription_queue s) s)).
Proof.
  unfold poll. rewrite check_transcription_queue_enough_fuel by lia.
  reflexivity.
Qed.

Lemma poll_control (s : DictationApp) : control (poll s) = control s.
Proof.
  rewrite poll_spec.
  change (control (show_all (transcription_queue s) s) = control s).
  apply show_all_control.
Qed.

(** One turn of the capture loop appends the chunk read and goes on, or
    leaves the loop having at most printed a line. *)
Lemma record_audio_iter_cases (d : outcome bytes) (s : DictationApp) :
  (∃ data, d = Return data ∧ recording s = true ∧ stream s ≠ None
           ∧ record_audio_iter d s
             = (Return Continue, set_frames (frames s ++ [data]) s))
  ∨ (∃ line, record_audio_iter d s = (Return Break, exec (print line) s))
  ∨ record_audio_iter d s = (Return Break, s).
Proof.
  unfold record_audio_iter, stream_read. unfold_monad.
  destruct (recording s) eqn:Hr; [|right; right; reflexivity].
  destruct (stream s) eqn:Hst; [destruct d as [data|e]|].
  - left. exists data. repeat split; congruence.
  - right. left. eexists. reflexivity.
  - right. left. eexists. reflexivity.
Qed.

Lemma record_audio_cons (d : outcome bytes) (device : list (outcome bytes))
    (s : DictationApp) :
  record_audio (d :: device) s
  = match record_audio_iter d s with
    | (Return Continue, s') => record_audio device s'
    | (Return Break, s') => (Return Finished, s')
    | (Raise e, s') => (Raise e, s')
    end.
Proof.
  simpl. unfold_monad. destruct (record_audio_iter d s) as [[[]|] ?]; reflexivity.
Qed.

Lemma record_audio_control (device : list (outcome bytes)) :
  ∀ s, control (exec (record_audio device) s) = control s.
Proof.
  induction device as [|d device IH]; intros s.
  { unfold exec. simpl. unfold_monad. destruct (recording s); reflexivity. }
  unfold exec. rewrite record_audio_cons.
  destruct (record_audio_iter_cases d s)
    as [(data & _ & _ & _ & ->) | [(line & ->) | ->]]; try reflexivity.
  change (control (exec (record_audio device) (set_frames (frames s ++ [data]) s))
          = control s).
  rewrite IH. reflexivity.
Qed.

Lemma process_audio_control (env : process_env) (s : DictationApp) :
  control (exec (process_audio env) s) = control s.
Proof.
  unfold process_audio, exec, os_makedirs, wave_write, model_transcribe.
  unfold_monad.
  destruct (makedirs_result env); [destruct (wave_result env)|]; simpl;
    [destruct (model s) eqn:Hm; [destruct (transcribe_result env)|]|..];
    unfold control; simpl; rewrite ?Hm; reflexivity.
Qed.

Lemma consistent_control (s s' : DictationApp) :
  control s' = control s → consistent s → consistent s'.
Proof.
  unfold control. intros [= Hr Hst _ Hsz Hl Hb Hmv Hlv _ Ho _] [H1 H2 H3 H4].
  constructor; rewrite ?Hr, ?Hst, ?Hsz, ?Hl, ?Hb, ?Hmv, ?Hlv, ?Ho; assumption.
Qed.

Lemma accounted_control (s s' : DictationApp) :
  control s' = control s → accounted s → accounted s'.
Proof.
  unfold control. intros [= Hr _ _ _ _ _ _ _ Ht Ho Hc] [H1 H2 H3].
  constructor; unfold started in *; rewrite ?Hr, ?Ht, ?Ho, ?Hc; assumption.
Qed.

End Frames.

(** ** What every run keeps true *)

Section Invariants.

Lemma started_thread_start (t u : target) (s : DictationApp) :
  started t (exec (thread_start u) s)
  = (started t s + (if target_eqb t u then 1 else 0))%nat.
Proof.
  unfold started, exec. simpl. rewrite List.filter_app, length_app. simpl.
  destruct (target_eqb t u); reflexivity.
Qed.

Lemma consistent_init : consistent init.
Proof. constructor; simpl; auto; discriminate. Qed.

Lemma accounted_init : accounted init.
Proof. constructor; vm_compute; lia. Qed.

Lemma step_consistent (e : event) (s : DictationApp) :
  consistent s → consistent (step e s).
Proof.
  intros H. destruct e as [device|size|lang| |text| |engine|device|env| |size engine]; simpl.
  - (* the record button *)
    destruct H as [Hb Hs Hl Hc]. unfold exec. rewrite toggle_recording_spec.
    destruct (recording s) eqn:Hr.
    + rewrite stop_recording_spec.
      destruct (stream s) as [st|] eqn:Hst; [destruct device|];
        constructor; simpl; rewrite ?Hst; auto; discriminate.
    + unfold start_recording. unfold_monad.
      destruct (model s); [destruct device|]; simpl;
        constructor; simpl; rewrite ?Hr; auto; discriminate.
  - (* the model combo box *)
    destruct H as [Hb Hs Hl [Hc1 Hc2]].
    unfold exec, select_model, on_model_change. unfold_monad. simpl.
    destruct (decide (size ≠ model_size s)) as [Hne|He]; simpl.
    + constructor; simpl; auto.
    + constructor; simpl; auto. split; [|assumption].
      destruct (decide (size = model_size s)); [assumption | contradiction].
  - (* the language combo box *)
    destruct H as [Hb Hs Hl [Hc1 Hc2]]. constructor; simpl; auto.
  - destruct H as [Hb Hs Hl Hc]. constructor; simpl; auto.
  - destruct H as [Hb Hs Hl Hc]. constructor; simpl; auto.
  - apply (consistent_control s); [apply poll_control | exact H].
  - (* the model loader *)
    destruct H as [Hb Hs Hl Hc]. destruct engine; constructor; simpl; auto.
  - apply (consistent_control s); [apply record_audio_control | exact H].
  - apply (consistent_control s); [apply process_audio_control | exact H].
  - destruct H as [Hb Hs Hl Hc]. constructor; simpl; auto.
  - destruct H as [Hb Hs Hl Hc]. destruct engine; constructor; simpl; auto.
Qed.

Lemma step_accounted (e : event) (s : DictationApp) :
  consistent s → accounted s → accounted (step e s).
Proof.
  intros Hcons H.
  destruct e as [device|size|lang| |text| |engine|device|env| |size engine]; simpl.
  - destruct H as [H1 H2 H3]. pose proof (recording_has_stream s Hcons) as Hs.
    unfold exec. rewrite toggle_recording_spec.
    destruct (recording s) eqn:Hr.
    + rewrite stop_recording_spec.
      destruct (stream s) as [st|] eqn:Hst; [|exact (False_ind _ (Hs eq_refl eq_refl))].
      destruct device; constructor; unfold started in *; simpl;
        rewrite ?List.filter_app, ?length_app; simpl; lia.
    + unfold start_recording. unfold_monad.
      destruct (model s); [destruct device|]; simpl;
        constructor; unfold started in *; simpl;
        rewrite ?List.filter_app, ?length_app, ?Hr; simpl; lia.
  - destruct H as [H1 H2 H3].
    unfold exec, select_model, on_model_change. unfold_monad. simpl.
    destruct (decide (size ≠ model_size s)); simpl;
      constructor; unfold started in *; simpl;
      rewrite ?List.filter_app, ?length_app; simpl; lia.
  - destruct H as [H1 H2 H3]. constructor; assumption.
  - destruct H as [H1 H2 H3]. constructor; assumption.
  - destruct H as [H1 H2 H3]. constructor; assumption.
  - apply (accounted_control s); [apply poll_control | exact H].
  - destruct H as [H1 H2 H3]. destruct engine; constructor; assumption.
  - apply (accounted_control s); [apply record_audio_control | exact H].
  - apply (accounted_control s); [apply process_audio_control | exact H].
  - destruct H as [H1 H2 H3]. constructor; assumption.
  - destruct H as [H1 H2 H3]. destruct engine; constructor; assumption.
Qed.

Lemma run_snoc (events : list event) (e : event) (s : DictationApp) :
  run (events ++ [e]) s = step e (run events s).
Proof. unfold run. rewrite fold_left_app. reflexivity. Qed.

Lemma run_consistent (events : list event) (s : DictationApp) :
  consistent s → consistent (run events s).
Proof.
  revert s. induction events as [|e events IH]; intros s H; [exact H|].
  simpl. apply IH, step_consistent, H.
Qed.

Lemma run_accounted (events : list event) (s : DictationApp) :
  consistent s → accounted s → accounted (run events s).
Proof.
  revert s. induction events as [|e events IH]; intros s Hc H; [exact H|].
  simpl. apply IH; [apply step_consistent | apply step_accounted]; assumption.
Qed.

End Invariants.

(** X1. After any sequence of events from start-up, the record button reads
    "Stop Recording" exactly while [self.recording] is set, and the two
    combo boxes show the model size and the language in use. *)
Theorem widgets_show_the_state (events : list event) :
  let s := run events init in
  record_btn (ui s)
  = (if recording s then StopRecordingText else StartRecordingText)
  ∧ model_var (ui s) = model_size s
  ∧ language_var (ui s) = language s.
Proof.
  intros s. destruct (run_consistent events init consistent_init) as [Hb _ _ Hc].
  split; [exact Hb | exact Hc].
Qed.

(** X2. After any sequence of events from start-up, a recording in progress
    has a stream, [self.stream] is always the stream opened last, and it is
    [None] only as long as no stream has been opened. *)
Theorem recording_uses_the_latest_stream (events : list event) :
  let s := run events init in
  (recording s = true →
   ∃ st, stream s = Some st ∧ S (stream_id st) = streams_opened (world s))
  ∧ (∀ st, stream s = Some st → S (stream_id st) = streams_opened (world s))
  ∧ (stream s = None ↔ streams_opened (world s) = 0%nat).
Proof.
  intros s. destruct (run_consistent events init consistent_init) as [_ Hs Hl _].
  fold s in Hs, Hl. split; [|split].
  - intros Hr. specialize (Hs Hr). destruct (stream s) as [st|]; [|congruence].
    exists st. split; [reflexivity | exact Hl].
  - intros st Hst. rewrite Hst in Hl. exact Hl.
  - destruct (stream s) as [st|]; split; intros H;
      solve [congruence | lia | reflexivity].
Qed.

(** X3. After any sequence of events from start-up, as many capture threads
    have been started as streams opened and as many transcription workers
    as streams closed; so through the button no worker is started without a
    session of its own: the workers, plus one while a recording is in
    progress, never outnumber the capture threads.  (Capture threads can
    outnumber workers by any amount, since a stop whose close fails starts
    no worker.) *)
Theorem workers_match_sessions (events : list event) :
  let s := run events init in
  started record_audio_target s = streams_opened (world s)
  ∧ started process_audio_target s = length (streams_closed (world s))
  ∧ (started process_audio_target s + (if recording s then 1 else 0)
     ≤ started record_audio_target s)%nat.
Proof.
  intros s.
  destruct (run_accounted events init consistent_init accounted_init)
    as [H1 H2 H3].
  fold s in H1, H2, H3. split; [exact H1|]. split; [exact H2|]. lia.
Qed.

(** ** More on the capture loop and the worker *)

Section CaptureLoop.

Lemma record_audio_idle (device : list (outcome bytes)) (s : DictationApp) :
  recording s = false →
  record_audio device s = (Return Finished, s).
Proof.
  intros Hr. destruct device as [|d device].
  - simpl. unfold_monad. rewrite Hr. reflexivity.
  - rewrite record_audio_cons. unfold record_audio_iter. unfold_monad.
    rewrite Hr. reflexivity.
Qed.

Lemma record_audio_no_stream (device : list (outcome bytes)) (s : DictationApp) :
  recording s = true → stream s = None →
  frames (exec (record_audio device) s) = frames s
  ∧ ∃ st, (record_audio device s).1 = Return st.
Proof.
  intros Hr Hst. destruct device as [|d device].
  - unfold exec. simpl. unfold_monad. rewrite Hr.
    split; [reflexivity | eexists; reflexivity].
  - unfold exec. rewrite record_audio_cons.
    unfold record_audio_iter, stream_read. unfold_monad. rewrite Hr, Hst.
    split; [reflexivity | eexists; reflexivity].
Qed.

Lemma record_audio_recording (device : list (outcome bytes)) :
  ∀ s, recording s = true → stream s ≠ None →
    frames (exec (record_audio device) s)
    = frames s ++ reads_before_failure device
    ∧ (record_audio device s).1
      = Return (if existsb read_fails device then Finished else Running).
Proof.
  induction device as [|[data|e] device IH]; intros s Hr Hst.
  - unfold exec. simpl. unfold_monad. rewrite Hr. simpl.
    rewrite app_nil_r. split; reflexivity.
  - unfold exec. rewrite record_audio_cons.
    rewrite record_audio_iter_appends by assumption.
    destruct (IH (set_frames (frames s ++ [data]) s) Hr Hst) as [Hf Hres].
    unfold exec in Hf. rewrite Hf, Hres. simpl. rewrite <- app_assoc.
    split; reflexivity.
  - unfold exec. rewrite record_audio_cons.
    rewrite record_audio_iter_read_error by assumption.
    simpl. rewrite app_nil_r. split; reflexivity.
Qed.

End CaptureLoop.

(** X4. Whatever the device answers, [record_audio] never raises, and what
    it appends to the buffer is exactly the chunks read before the first
    failing read, in order — nothing at all once [self.recording] is clear
    or when there is no stream.  While recording on a stream, the thread
    finishes exactly when one of the reads fails. *)
Theorem record_audio_appends_reads_before_failure
    (device : list (outcome bytes)) (s : DictationApp) :
  (∃ st, (record_audio device s).1 = Return st)
  ∧ frames (exec (record_audio device) s)
    = frames s ++ match recording s, stream s with
                  | true, Some _ => reads_before_failure device
                  | _, _ => []
                  end
  ∧ (recording s = true → stream s ≠ None →
     (record_audio device s).1
     = Return (if existsb read_fails device then Finished else Running)).
Proof.
  destruct (recording s) eqn:Hr; [destruct (stream s) as [st|] eqn:Hst|].
  - assert (Hne : stream s ≠ None) by congruence.
    destruct (record_audio_recording device s Hr Hne) as [Hf Hres].
    split; [eexists; exact Hres|]. split; [exact Hf | intros _ _; exact Hres].
  - destruct (record_audio_no_stream device s Hr Hst) as [Hf Hres].
    rewrite app_nil_r. split; [exact Hres|]. split; [exact Hf | congruence].
  - rewrite app_nil_r. unfold exec. rewrite record_audio_idle by assumption.
    split; [eexists; reflexivity|]. split; [reflexivity | discriminate].
Qed.

Lemma record_audio_appends_reads_before_failure_witness :
  recording in_session = true
  ∧ stream in_session ≠ None
  ∧ frames (exec (record_audio [Return chunk_b; Raise (Exception "overflow");
                                Return chunk_a]) in_session)
    = [chunk_a; chunk_b]
  ∧ (record_audio [Return chunk_b; Raise (Exception "overflow");
                   Return chunk_a] in_session).1 = Return Finished.
Proof.
  destruct (record_audio_appends_reads_before_failure
              [Return chunk_b; Raise (Exception "overflow"); Return chunk_a]
              in_session) as (_ & Hf & Hres).
  split; [reflexivity|]. split; [discriminate|]. split; [exact Hf|].
  apply Hres; [reflexivity | discriminate].
Defined.

(** X5. The transcription worker writes nothing but the queue, the
    recordings directory and standard output: whatever happens in it, the
    widgets, the dialogs shown, the threads, the timers, the streams, the
    buffer and every other attribute are left as they were. *)
Theorem process_audio_leaves_the_application_alone
    (env : process_env) (s : DictationApp) :
  let s' := exec (process_audio env) s in
  ui s' = ui s
  ∧ dialogs (world s') = dialogs (world s)
  ∧ threads (world s') = threads (world s)
  ∧ timers (world s') = timers (world s)
  ∧ streams_opened (world s') = streams_opened (world s)
  ∧ streams_closed (world s') = streams_closed (world s)
  ∧ recording s' = recording s
  ∧ frames s' = frames s
  ∧ stream s' = stream s
  ∧ model s' = model s
  ∧ model_size s' = model_size s
  ∧ language s' = language s.
Proof.
  unfold process_audio, exec, os_makedirs, wave_write, model_transcribe.
  unfold_monad.
  destruct (makedirs_result env); [destruct (wave_result env)|]; simpl;
    [destruct (model s) eqn:Hm; [destruct (transcribe_result env)|]|..];
    simpl; rewrite ?Hm; repeat split.
Qed.

(** X6. The artifact is written before the model is used: when the file
    can be written but no model is loaded or Whisper raises, the artifact of
    the buffer is on disk all the same, and the item queued is the error. *)
Theorem failed_transcription_keeps_the_artifact
    (env : process_env) (s : DictationApp) (e : exn) :
  makedirs_result env = Return () → wave_result env = Return () →
  (model s = None
   ∧ e = Exception "'NoneType' object has no attribute 'transcribe'")
  ∨ (model s ≠ None ∧ transcribe_result env = Raise e) →
  files (world (exec (process_audio env) s)) !! temp_filename (now env)
  = Some (artifact (frames s))
  ∧ transcription_queue (exec (process_audio env) s)
    = transcription_queue s ++ ["Error: " +:+ str e].
Proof.
  intros Hd Hw Hcase. split.
  - rewrite process_audio_writes by assumption. apply lookup_insert_eq.
  - apply process_audio_failure. unfold process_failure. rewrite Hd, Hw.
    destruct Hcase as [[-> ->] | [Hm ->]]; [reflexivity|].
    destruct (model s); [reflexivity | congruence].
Qed.

Lemma failed_transcription_keeps_the_artifact_witness :
  model init = None
  ∧ files (world (exec (process_audio env_first) init))
    !! "recordings/1700000000.wav" = Some (artifact [])
  ∧ transcription_queue (exec (process_audio env_first) init)
    = ["Error: 'NoneType' object has no attribute 'transcribe'"].
Proof.
  split; [reflexivity|].
  apply (failed_transcription_keeps_the_artifact env_first init
           (Exception "'NoneType' object has no attribute 'transcribe'"));
    [reflexivity | reflexivity | left; split; reflexivity].
Defined.

(** ** More on the polling consumer *)

Section Shown.

Lemma show_all_cons (item : string) (items : list string) (s : DictationApp) :
  show_all (item :: items) s = show_all items (exec (show_transcription item) s).
Proof. reflexivity. Qed.

Lemma show_all_snoc (items : list string) (item : string) (s : DictationApp) :
  show_all (items ++ [item]) s = exec (show_transcription item) (show_all items s).
Proof. unfold show_all. rewrite fold_left_app. reflexivity. Qed.

Lemma show_transcription_dialogs (item : string) (s : DictationApp) :
  dialogs (world (exec (show_transcription item) s))
  = dialogs (world s)
    ++ (if is_error item then [ShowError "Transcription Error" item] else []).
Proof.
  unfold exec, is_error. destruct (startswith item "Error:") eqn:H.
  - rewrite show_transcription_error by assumption. reflexivity.
  - rewrite show_transcription_text by assumption. simpl.
    rewrite app_nil_r. reflexivity.
Qed.

Lemma show_transcription_status (item : string) (s : DictationApp) :
  status_label (ui (exec (show_transcription item) s))
  = if is_error item then "Transcription failed"
    else "Transcription complete - Ready for next recording".
Proof.
  unfold exec, is_error. destruct (startswith item "Error:") eqn:H.
  - rewrite show_transcription_error by assumption. reflexivity.
  - rewrite show_transcription_text by assumption. reflexivity.
Qed.

Lemma show_transcription_text_area (item : string) (s : DictationApp) :
  text_area (ui (exec (show_transcription item) s))
  = text_area (ui s)
    +:+ (if is_error item then "" else inserted_text (text_area (ui s)) item).
Proof.
  unfold exec, is_error. destruct (startswith item "Error:") eqn:H.
  - rewrite show_transcription_error by assumption. simpl.
    rewrite string_app_nil_r. reflexivity.
  - rewrite show_transcription_text by assumption. reflexivity.
Qed.

Lemma show_all_dialogs (items : list string) :
  ∀ s, dialogs (world (show_all items s))
       = dialogs (world s)
         ++ map (ShowError "Transcription Error") (List.filter is_error items).
Proof.
  induction items as [|item items IH]; intros s.
  - simpl. rewrite app_nil_r. reflexivity.
  - rewrite show_all_cons, IH, show_transcription_dialogs. simpl.
    rewrite <- app_assoc. destruct (is_error item); reflexivity.
Qed.

Lemma show_all_text_area_grows (items : list string) :
  ∀ s, ∃ added, text_area (ui (show_all items s)) = text_area (ui s) +:+ added.
Proof.
  induction items as [|item items IH]; intros s.
  - exists "". simpl. rewrite string_app_nil_r. reflexivity.
  - rewrite show_all_cons.
    destruct (IH (exec (show_transcription item) s)) as (added & ->).
    rewrite show_transcription_text_area, string_app_assoc. eexists. reflexivity.
Qed.

Lemma inserted_text_nonblank (area item : string) :
  nonblank area → inserted_text area item = LF +:+ LF +:+ item.
Proof.
  unfold nonblank, inserted_text. intros H.
  destruct (decide (strip (area +:+ LF) ≠ "")); [reflexivity | contradiction].
Qed.

Lemma inserted_text_blank (area item : string) :
  blank area → inserted_text area item = item.
Proof.
  intros H. unfold inserted_text.
  destruct (decide (strip (area +:+ LF) ≠ "")) as [Hn|]; [|reflexivity].
  apply nonblank_iff in Hn. contradiction.
Qed.

Lemma show_all_text_area_nonblank (items : list string) :
  ∀ s, Forall (fun item => is_error item = false) items →
       nonblank (text_area (ui s)) →
       text_area (ui (show_all items s))
       = text_area (ui s) +:+ blank_line_before items.
Proof.
  induction items as [|item items IH]; intros s Hok Hnb.
  - simpl. rewrite string_app_nil_r. reflexivity.
  - apply Forall_cons in Hok as [Hi Hok]. rewrite show_all_cons.
    rewrite IH; [|exact Hok|].
    + rewrite show_transcription_text_area, Hi, inserted_text_nonblank by exact Hnb.
      rewrite !string_app_assoc. reflexivity.
    + rewrite show_transcription_text_area. apply nonblank_app, Hnb.
Qed.

Lemma poll_ui (s : DictationApp) :
  ui (poll s) = ui (show_all (transcription_queue s) s).
Proof. rewrite poll_spec. reflexivity. Qed.

End Shown.

(** X7. A poll empties the queue and shows one "Transcription Error" dialog
    for each queued item that starts with "Error:", in queue order, and no
    other dialog.  It never removes text from the text area, only appends.
    The status label is left saying what happened to the last item only:
    an error followed by a success in the same poll ends with "complete". *)
Theorem poll_shows_each_error_once (s : DictationApp) :
  dialogs (world (poll s))
  = dialogs (world s)
    ++ map (ShowError "Transcription Error")
         (List.filter is_error (transcription_queue s))
  ∧ transcription_queue (poll s) = []
  ∧ (∃ added, text_area (ui (poll s)) = text_area (ui s) +:+ added)
  ∧ (∀ item, last (transcription_queue s) = Some item →
     status_label (ui (poll s))
     = if is_error item then "Transcription failed"
       else "Transcription complete - Ready for next recording")
  ∧ (transcription_queue s = [] → status_label (ui (poll s)) = status_label (ui s)).
Proof.
  split; [|split; [|split; [|split]]].
  - rewrite poll_spec. apply show_all_dialogs.
  - rewrite poll_spec. reflexivity.
  - rewrite poll_ui. apply show_all_text_area_grows.
  - intros item Hlast. apply last_Some in Hlast as [items Hq].
    rewrite poll_ui, Hq, show_all_snoc. apply show_transcription_status.
  - intros Hq. rewrite poll_ui, Hq. reflexivity.
Qed.

Lemma poll_shows_each_error_once_witness :
  let s := set_transcription_queue ["Error: a"; "een"; "Error: b"; "twee"] ready in
  last (transcription_queue s) = Some "twee"
  ∧ dialogs (world (poll s))
    = [ShowError "Transcription Error" "Error: a";
       ShowError "Transcription Error" "Error: b"]
  ∧ status_label (ui (poll s))
    = "Transcription complete - Ready for next recording".
Proof.
  intros s.
  destruct (poll_shows_each_error_once s) as (Hd & _ & _ & Hs & _).
  split; [reflexivity|]. split; [exact Hd|].
  apply (Hs "twee"). reflexivity.
Defined.

(** X8. When none of the queued items starts with "Error:", a poll appends
    them in order.  If the text area already holds text, each item is
    preceded by a blank line.  If it holds nothing but white space and the
    first item is not blank, the first item follows directly and each of
    the others is preceded by a blank line; so after "Clear Text" the text
    area is the items joined by blank lines. *)
Theorem poll_appends_with_blank_lines (s : DictationApp) :
  Forall (fun item => is_error item = false) (transcription_queue s) →
  (nonblank (text_area (ui s)) →
   text_area (ui (poll s))
   = text_area (ui s) +:+ blank_line_before (transcription_queue s))
  ∧ (∀ item items,
       transcription_queue s = item :: items →
       ¬ blank item →
       (blank (text_area (ui s)) →
        text_area (ui (poll s))
        = text_area (ui s) +:+ item +:+ blank_line_before items)
       ∧ text_area (ui (run [ClearText; Timer] s))
         = item +:+ blank_line_before items).
Proof.
  intros Hok. split.
  - intros Hnb. rewrite poll_ui. apply show_all_text_area_nonblank; assumption.
  - intros item items Hq Hitem. rewrite Hq in Hok.
    apply Forall_cons in Hok as [Hi Hok].
    assert (Hgen : ∀ s0, transcription_queue s0 = item :: items →
                     blank (text_area (ui s0)) →
                     text_area (ui (poll s0))
                     = text_area (ui s0) +:+ item +:+ blank_line_before items).
    { intros s0 Hq0 Hblank. rewrite poll_ui, Hq0, show_all_cons.
      rewrite show_all_text_area_nonblank; [|exact Hok|].
      - rewrite show_transcription_text_area, Hi, inserted_text_blank by exact Hblank.
        rewrite string_app_assoc. reflexivity.
      - rewrite show_transcription_text_area, Hi, inserted_text_blank by exact Hblank.
        apply nonblank_iff. rewrite blank_app. tauto. }
    split; [apply Hgen, Hq|].
    change (run [ClearText; Timer] s) with (poll (exec clear_text s)).
    rewrite Hgen; [reflexivity | exact Hq | constructor].
Qed.

Lemma poll_appends_with_blank_lines_witness :
  let s := set_transcription_queue ["een"; "twee"] ready in
  Forall (fun item => is_error item = false) (transcription_queue s)
  ∧ ¬ blank "een"
  ∧ text_area (ui (run [ClearText; Timer] s)) = "een" +:+ LF +:+ LF +:+ "twee"
  ∧ text_area (ui (poll (poll s)))
    = "een" +:+ LF +:+ LF +:+ "twee".
Proof.
  intros s.
  assert (Hok : Forall (fun item => is_error item = false) (transcription_queue s))
    by (repeat constructor).
  assert (Hnb : ¬ blank "een").
  { intros H. apply Forall_cons in H as [H _]. discriminate H. }
  destruct (poll_appends_with_blank_lines s Hok) as [_ H].
  destruct (H "een" ["twee"] eq_refl Hnb) as [_ Hclear].
  split; [exact Hok|]. split; [exact Hnb|]. split; [exact Hclear|].
  vm_compute. reflexivity.
Defined.

(** ** A session from button to text area *)

Section Session.

Lemma step_click_starts (s : DictationApp) (m : Whisper) :
  recording s = false → model s = Some m →
  step (Click (Return ())) s
  = exec (assign (set_frames []);;
          with_world (set_streams_opened (S (streams_opened (world s))));;
          assign (set_stream (Some {| stream_id := streams_opened (world s) |}));;
          assign (set_recording true);;
          record_btn_config StopRecordingText;;
          status_label_config "Recording... Click stop when finished";;
          thread_start record_audio_target) s.
Proof.
  intros Hr Hm. simpl. unfold exec at 1.
  rewrite toggle_recording_spec, Hr, (start_recording_opens _ s m Hm eq_refl).
  reflexivity.
Qed.

Lemma step_click_stops (s : DictationApp) (st : Stream) :
  recording s = true → stream s = Some st →
  step (Click (Return ())) s
  = exec (assign (set_recording false);;
          record_btn_config StartRecordingText;;
          status_label_config "Processing audio...";;
          with_world (fun w => set_streams_closed (streams_closed w ++ [st]) w);;
          thread_start process_audio_target) s.
Proof.
  intros Hr Hst. simpl. unfold exec at 1.
  rewrite toggle_recording_spec, Hr, stop_recording_spec, Hst. reflexivity.
Qed.

Lemma step_record_appends (chunks : list bytes) (s : DictationApp) :
  recording s = true → stream s ≠ None →
  step (RecordAudioThread (map Return chunks)) s
  = set_frames (frames s ++ chunks) s.
Proof.
  intros Hr Hst. simpl. unfold exec.
  rewrite record_audio_appends by assumption. reflexivity.
Qed.

Lemma step_process_success (env : process_env) (s : DictationApp)
    (m : Whisper) (text : string) :
  makedirs_result env = Return () → wave_result env = Return () →
  model s = Some m → transcribe_result env = Return text →
  step (ProcessAudioThread env) s
  = exec (wave_write (temp_filename (now env)) channels sample_size_paInt16
            rate (concat (frames s)) (Return ());;
          queue_put (strip text)) s.
Proof.
  intros Hd Hw Hm Ht. simpl. unfold exec at 1.
  rewrite (process_audio_success env s m text Hd Hw Hm Ht). reflexivity.
Qed.

Lemma poll_single (item : string) (s : DictationApp) :
  transcription_queue s = [item] →
  poll s
  = exec (root_after 100 check_transcription_queue_cb)
      (set_transcription_queue [] (exec (show_transcription item) s)).
Proof. intros Hq. rewrite poll_spec, Hq. reflexivity. Qed.

Lemma exec_show_text (item : string) (s : DictationApp) :
  is_error item = false →
  exec (show_transcription item) s
  = exec (text_area_insert_END (inserted_text (text_area (ui s)) item);;
          status_label_config
            "Transcription complete - Ready for next recording") s.
Proof.
  intros H. unfold exec at 1. rewrite show_transcription_text by exact H.
  reflexivity.
Qed.

Lemma exec_show_error (item : string) (s : DictationApp) :
  is_error item = true →
  exec (show_transcription item) s
  = exec (messagebox_showerror "Transcription Error" item;;
          status_label_config "Transcription failed") s.
Proof.
  intros H. unfold exec at 1. rewrite show_transcription_error by exact H.
  reflexivity.
Qed.

Lemma process_audio_widgets (env : process_env) (s : DictationApp) :
  ui (exec (process_audio env) s) = ui s
  ∧ dialogs (world (exec (process_audio env) s)) = dialogs (world s).
Proof.
  unfold process_audio, exec, os_makedirs, wave_write, model_transcribe.
  unfold_monad.
  destruct (makedirs_result env); [destruct (wave_result env)|]; simpl;
    [destruct (model s); [destruct (transcribe_result env)|]|..];
    split; reflexivity.
Qed.

End Session.

(** X9. A whole session through the button: from an idle application with a
    model loaded and an empty queue, a click, the capture of some chunks, a
    second click, the worker and the next poll — device, file system and
    Whisper all succeeding, the stripped text not starting with "Error:" —
    leave the application idle, the artifact of exactly those chunks on
    disk, the stripped text appended to the text area (after a blank line
    if there was text), no dialog shown and the queue empty. *)
Theorem session_delivers_the_text
    (s : DictationApp) (chunks : list bytes) (env : process_env) (text : string) :
  recording s = false → model s ≠ None → transcription_queue s = [] →
  makedirs_result env = Return () → wave_result env = Return () →
  transcribe_result env = Return text → is_error (strip text) = false →
  let s' := run [Click (Return ()); RecordAudioThread (map Return chunks);
                 Click (Return ()); ProcessAudioThread env; Timer] s in
  recording s' = false
  ∧ record_btn (ui s') = StartRecordingText
  ∧ files (world s') !! temp_filename (now env) = Some (artifact chunks)
  ∧ text_area (ui s')
    = text_area (ui s) +:+ inserted_text (text_area (ui s)) (strip text)
  ∧ dialogs (world s') = dialogs (world s)
  ∧ status_label (ui s') = "Transcription complete - Ready for next recording"
  ∧ transcription_queue s' = []
  ∧ threads (world s')
    = threads (world s) ++ [record_audio_target; process_audio_target].
Proof.
  intros Hr Hm Hq Hd Hw Ht He s'. subst s'.
  destruct (model s) as [m|] eqn:Em; [clear Hm | congruence].
  unfold run. cbn [fold_left].
  rewrite (step_click_starts s m Hr Em).
  match goal with |- context [step (RecordAudioThread _) ?t] =>
    rewrite (step_record_appends chunks t) by (reflexivity || discriminate) end.
  match goal with |- context [step (Click _) ?t] =>
    rewrite (step_click_stops t {| stream_id := streams_opened (world s) |})
      by reflexivity end.
  match goal with |- context [step (ProcessAudioThread _) ?t] =>
    rewrite (step_process_success env t m text) by assumption end.
  cbn [step].
  match goal with |- context [poll ?t] =>
    rewrite (poll_single (strip text) t) by (simpl; rewrite Hq; reflexivity) end.
  rewrite exec_show_text by exact He.
  simpl. rewrite <- app_assoc. repeat split.
  apply lookup_insert_eq.
Qed.

Lemma session_delivers_the_text_witness :
  recording ready = false
  ∧ model ready ≠ None
  ∧ is_error (strip " dankie ") = false
  ∧ text_area (ui (run [Click (Return ());
                        RecordAudioThread (map Return [chunk_a; chunk_b]);
                        Click (Return ());
                        ProcessAudioThread
                          {| now := 0; makedirs_result := Return ();
                             wave_result := Return ();
                             transcribe_result := Return " dankie " |};
                        Timer] ready))
    = "dankie".
Proof.
  split; [reflexivity|]. split; [discriminate|]. split; [reflexivity|].
  destruct (session_delivers_the_text ready [chunk_a; chunk_b]
              {| now := 0; makedirs_result := Return ();
                 wave_result := Return ();
                 transcribe_result := Return " dankie " |} " dankie ")
    as (_ & _ & _ & Htext & _);
    [reflexivity | discriminate | reflexivity | reflexivity | reflexivity
    | reflexivity | reflexivity |].
  exact Htext.
Defined.

(** X10. The same session when the worker fails — the directory or the file
    cannot be written, or Whisper raises: the application is idle again all
    the same, the text area is untouched, and the poll shows exactly one
    error dialog whose text is "Error: " followed by the message, with the
    status "Transcription failed". *)
Theorem session_failure_is_reported
    (s : DictationApp) (chunks : list bytes) (env : process_env) (e : exn) :
  recording s = false → model s ≠ None → transcription_queue s = [] →
  makedirs_result env = Raise e
  ∨ (makedirs_result env = Return () ∧ wave_result env = Raise e)
  ∨ (makedirs_result env = Return () ∧ wave_result env = Return ()
     ∧ transcribe_result env = Raise e) →
  let s' := run [Click (Return ()); RecordAudioThread (map Return chunks);
                 Click (Return ()); ProcessAudioThread env; Timer] s in
  recording s' = false
  ∧ record_btn (ui s') = StartRecordingText
  ∧ text_area (ui s') = text_area (ui s)
  ∧ dialogs (world s')
    = dialogs (world s)
      ++ [ShowError "Transcription Error" ("Error: " +:+ str e)]
  ∧ status_label (ui s') = "Transcription failed"
  ∧ transcription_queue s' = [].
Proof.
  intros Hr Hm Hq Hcase s'. subst s'.
  destruct (model s) as [m|] eqn:Em; [clear Hm | congruence].
  unfold run. cbn [fold_left].
  rewrite (step_click_starts s m Hr Em).
  match goal with |- context [step (RecordAudioThread _) ?t] =>
    rewrite (step_record_appends chunks t) by (reflexivity || discriminate) end.
  match goal with |- context [step (Click _) ?t] =>
    rewrite (step_click_stops t {| stream_id := streams_opened (world s) |})
      by reflexivity end.
  cbn [step].
  match goal with |- context [exec (process_audio env) ?t] =>
    remember t as t3 eqn:E3 end.
  assert (Hf : process_failure env t3 = Some e).
  { unfold process_failure.
    assert (Hm3 : model t3 = Some m) by (rewrite E3; exact Em). rewrite Hm3.
    destruct Hcase as [-> | [[-> ->] | (-> & -> & ->)]]; reflexivity. }
  destruct (process_audio_failure env t3 e Hf) as [Hput _].
  destruct (process_audio_widgets env t3) as [Hui Hdlg].
  pose proof (process_audio_control env t3) as Hctl.
  remember (exec (process_audio env) t3) as s4 eqn:E4.
  assert (Hq3 : transcription_queue t3 = []) by (rewrite E3; exact Hq).
  rewrite Hq3 in Hput. simpl in Hput.
  rewrite (poll_single _ s4 Hput).
  rewrite exec_show_error by apply startswith_Error.
  unfold control in Hctl. injection Hctl as Hrec _ _ _ _ _ _ _ _ _ _.
  simpl. rewrite Hrec, Hui, Hdlg, E3. repeat split.
Qed.

Lemma session_failure_is_reported_witness :
  recording ready = false
  ∧ model ready ≠ None
  ∧ dialogs (world (run [Click (Return ());
                         RecordAudioThread (map Return [chunk_a]);
                         Click (Return ());
                         ProcessAudioThread
                           {| now := 0; makedirs_result := Return ();
                              wave_result := Raise (Exception "disk full");
                              transcribe_result := Return "een" |};
                         Timer] ready))
    = [ShowError "Transcription Error" "Error: disk full"].
Proof.
  split; [reflexivity|]. split; [discriminate|].
  destruct (session_failure_is_reported ready [chunk_a]
              {| now := 0; makedirs_result := Return ();
                 wave_result := Raise (Exception "disk full");
                 transcribe_result := Return "een" |} (Exception "disk full"))
    as (_ & _ & _ & Hd & _);
    [reflexivity | discriminate | reflexivity
    | right; left; split; reflexivity |].
  exact Hd.
Defined.

(** X11. Silence: when Whisper answers nothing but white space, the item
    queued is the empty string, and the poll shows no dialog and reports
    "complete"; the text area is unchanged if it held only white space, and
    otherwise gains the blank-line separator with nothing after it. *)
Theorem blank_transcription_appends_only_the_separator
    (s : DictationApp) (env : process_env) (text : string) :
  model s ≠ None → transcription_queue s = [] →
  makedirs_result env = Return () → wave_result env = Return () →
  transcribe_result env = Return text → blank text →
  let s' := run [ProcessAudioThread env; Timer] s in
  transcription_queue (step (ProcessAudioThread env) s) = [""]
  ∧ dialogs (world s') = dialogs (world s)
  ∧ status_label (ui s') = "Transcription complete - Ready for next recording"
  ∧ (blank (text_area (ui s)) → text_area (ui s') = text_area (ui s))
  ∧ (¬ blank (text_area (ui s)) →
     text_area (ui s') = text_area (ui s) +:+ LF +:+ LF).
Proof.
  intros Hm Hq Hd Hw Ht Hblank s'. subst s'.
  destruct (model s) as [m|] eqn:Em; [clear Hm | congruence].
  apply strip_empty_iff in Hblank.
  unfold run. cbn [fold_left].
  rewrite (step_process_success env s m text Hd Hw Em Ht), Hblank.
  split; [simpl; rewrite Hq; reflexivity|].
  match goal with |- context [step Timer ?t] =>
    change (step Timer t) with (poll t);
    rewrite (poll_single "" t) by (simpl; rewrite Hq; reflexivity) end.
  rewrite exec_show_text by reflexivity.
  simpl. split; [reflexivity|]. split; [reflexivity|]. split.
  - intros Ha. rewrite inserted_text_blank by exact Ha.
    apply string_app_nil_r.
  - intros Ha. rewrite inserted_text_nonblank by (apply nonblank_iff, Ha).
    rewrite string_app_nil_r. reflexivity.
Qed.

Lemma blank_transcription_appends_only_the_separator_witness :
  model ready ≠ None
  ∧ blank "  "
  ∧ text_area (ui (run [ProcessAudioThread
                          {| now := 0; makedirs_result := Return ();
                             wave_result := Return ();
                             transcribe_result := Return "  " |};
                        Timer] ready))
    = "".
Proof.
  assert (Hb : blank "  ") by (repeat constructor).
  split; [discriminate|]. split; [exact Hb|].
  destruct (blank_transcription_appends_only_the_separator ready
              {| now := 0; makedirs_result := Return ();
                 wave_result := Return ();
                 transcribe_result := Return "  " |} "  ")
    as (_ & _ & _ & Hkeep & _);
    [discriminate | reflexivity | reflexivity | reflexivity | reflexivity
    | exact Hb |].
  apply Hkeep. constructor.
Defined.

(** ** Readiness of the model *)

Section Readiness.

Lemma step_click_not_loaded (device : outcome unit) (s : DictationApp) :
  model s = None → recording s = false →
  step (Click device) s
  = exec (messagebox_showwarning "Warning"
            "Please wait for the model to load first.") s.
Proof.
  intros Hm Hr. simpl. unfold exec at 1.
  rewrite toggle_recording_spec, Hr, (start_recording_not_loaded device s Hm).
  reflexivity.
Qed.

(** Clicks on an idle application without a model only add warnings. *)
Lemma clicks_not_loaded (devices : list (outcome unit)) :
  ∀ s, model s = None → recording s = false →
    let s' := run (map Click devices) s in
    model s' = None
    ∧ recording s' = false
    ∧ frames s' = frames s
    ∧ stream s' = stream s
    ∧ ui s' = ui s
    ∧ threads (world s') = threads (world s)
    ∧ streams_opened (world s') = streams_opened (world s)
    ∧ dialogs (world s')
      = dialogs (world s)
        ++ replicate (length devices)
             (ShowWarning "Warning" "Please wait for the model to load first.").
Proof.
  induction devices as [|d devices IH]; intros s Hm Hr s'; subst s'.
  - simpl. rewrite app_nil_r. repeat split; assumption.
  - unfold run in *. cbv zeta in IH. cbn [map fold_left].
    rewrite (step_click_not_loaded d s Hm Hr).
    match goal with |- context [fold_left _ _ ?t] =>
      destruct (IH t Hm Hr) as (H1 & H2 & H3 & H4 & H5 & H6 & H7 & H8) end.
    rewrite H1, H2, H3, H4, H5, H6, H7, H8. simpl.
    rewrite <- app_assoc. repeat split.
Qed.

End Readiness.

(** X12. While no model is loaded, clicking the record button of the idle
    application any number of times, whatever the device would answer,
    never starts a recording: no stream is opened, no thread started, the
    buffer and the widgets are untouched, and each click shows the "please
    wait" warning once. *)
Theorem clicks_without_model_only_warn
    (devices : list (outcome unit)) (s : DictationApp) :
  model s = None → recording s = false →
  let s' := run (map Click devices) s in
  recording s' = false
  ∧ frames s' = frames s
  ∧ stream s' = stream s
  ∧ ui s' = ui s
  ∧ threads (world s') = threads (world s)
  ∧ streams_opened (world s') = streams_opened (world s)
  ∧ dialogs (world s')
    = dialogs (world s)
      ++ replicate (length devices)
           (ShowWarning "Warning" "Please wait for the model to load first.").
Proof.
  intros Hm Hr. apply (clicks_not_loaded devices s Hm Hr).
Qed.

Lemma clicks_without_model_only_warn_witness :
  model init = None
  ∧ recording init = false
  ∧ dialogs (world (run (map Click [Return (); Raise (Exception "no device")])
                      init))
    = replicate 2 (ShowWarning "Warning" "Please wait for the model to load first.").
Proof.
  split; [reflexivity|]. split; [reflexivity|].
  destruct (clicks_without_model_only_warn
              [Return (); Raise (Exception "no device")] init)
    as (_ & _ & _ & _ & _ & _ & Hd); [reflexivity | reflexivity |].
  exact Hd.
Defined.

(** X13. Changing the model size of an idle application clears the model:
    after the selection every click is rejected and opens no stream, as
    long as no load returns.  Once the load thread started by the selection
    has run through successfully, a click starts a recording on the model
    of the newly selected size, with an empty buffer.  But a call of
    [whisper.load_model] made for another size before the selection (that
    of start-up, say) installs its model when it returns: a click then
    starts a recording on that model, although the size selected is the
    new one. *)
Theorem model_change_and_loads_in_flight
    (size stale : string) (s : DictationApp) :
  recording s = false → size ≠ model_size s →
  (∀ devices,
     let s' := run (map Click devices) (step (SelectModel size) s) in
     recording s' = false
     ∧ model s' = None
     ∧ streams_opened (world s') = streams_opened (world s)
     ∧ threads (world s') = threads (world s) ++ [load_model_target])
  ∧ (let s' := run [SelectModel size; LoadModelThread (Return ());
                    Click (Return ())] s in
     recording s' = true
     ∧ model s' = Some {| whisper_name := size |}
     ∧ frames s' = []
     ∧ streams_opened (world s') = S (streams_opened (world s))
     ∧ status_label (ui s') = "Recording... Click stop when finished")
  ∧ (let s' := run [SelectModel size; LoadModelCalls;
                    LoadModelReturns size (Return ()); Click (Return ())] s in
     recording s' = true ∧ model s' = Some {| whisper_name := size |})
  ∧ (let s' := run [SelectModel size; LoadModelReturns stale (Return ());
                    Click (Return ())] s in
     recording s' = true
     ∧ model s' = Some {| whisper_name := stale |}
     ∧ model_size s' = size
     ∧ model_var (ui s') = size).
Proof.
  intros Hr Hne.
  assert (Hsel : step (SelectModel size) s
    = exec (with_ui (set_model_var size);;
            assign (set_model_size size);;
            assign (set_model None);;
            thread_start load_model_target) s).
  { simpl. unfold select_model, exec, with_ui, assign. unfold_monad.
    rewrite on_model_change_other by (simpl; congruence). reflexivity. }
  split; [|split; [|split]].
  - intros devices. rewrite Hsel.
    match goal with |- context [run _ ?t] =>
      destruct (clicks_not_loaded devices t eq_refl Hr)
        as (H1 & H2 & _ & _ & _ & H6 & H7 & _) end.
    simpl. repeat split; assumption.
  - unfold run. cbn [fold_left]. rewrite Hsel.
    rewrite (step_click_starts _ {| whisper_name := size |});
      [|exact Hr | reflexivity].
    repeat split.
  - unfold run. cbn [fold_left]. rewrite Hsel.
    rewrite (step_click_starts _ {| whisper_name := size |});
      [|exact Hr | reflexivity].
    repeat split.
  - unfold run. cbn [fold_left]. rewrite Hsel.
    rewrite (step_click_starts _ {| whisper_name := stale |});
      [|exact Hr | reflexivity].
    repeat split.
Qed.

Lemma model_change_and_loads_in_flight_witness :
  recording init = false
  ∧ "tiny" ≠ model_size init
  ∧ recording (run (map Click [Return ()]) (step (SelectModel "tiny") init))
    = false
  ∧ model (run [SelectModel "tiny"; LoadModelReturns "base" (Return ());
                Click (Return ())] init)
    = Some {| whisper_name := "base" |}
  ∧ model_size (run [SelectModel "tiny"; LoadModelReturns "base" (Return ());
                     Click (Return ())] init)
    = "tiny".
Proof.
  destruct (model_change_and_loads_in_flight "tiny" "base" init)
    as (Hblock & _ & _ & Hstale); [reflexivity | discriminate |].
  destruct Hstale as (_ & Hm & Hsz & _).
  split; [reflexivity|]. split; [discriminate|]. split.
  - apply (Hblock [Return ()]).
  - split; [exact Hm | exact Hsz].
Defined.

(** X14. A load that fails leaves [self.model] as it was and reports the
    failure in an error dialog and in the status label.  If no model was
    loaded, the record button of the idle application stays without effect
    afterwards; if one was loaded, it is still the one in use. *)
Theorem failed_load_keeps_the_model (e : exn) (s : DictationApp) :
  let s' := step (LoadModelThread (Raise e)) s in
  model s' = model s
  ∧ model_size s' = model_size s
  ∧ dialogs (world s')
    = dialogs (world s) ++ [ShowError "Error" ("Failed to load model: " +:+ str e)]
  ∧ status_label (ui s') = "Model loading failed"
  ∧ (model s = None → recording s = false →
     ∀ devices,
       recording (run (map Click devices) s') = false
       ∧ streams_opened (world (run (map Click devices) s'))
         = streams_opened (world s)).
Proof.
  intros s'. subst s'. simpl.
  split; [reflexivity|]. split; [reflexivity|]. split; [reflexivity|].
  split; [reflexivity|].
  intros Hm Hr devices.
  match goal with |- context [run _ ?t] =>
    destruct (clicks_not_loaded devices t Hm Hr) as (_ & H2 & _ & _ & _ & _ & H7 & _) end.
  split; assumption.
Qed.

Lemma failed_load_keeps_the_model_witness :
  model init = None
  ∧ recording init = false
  ∧ recording (run (map Click [Return ()])
                 (step (LoadModelThread (Raise (Exception "no file"))) init))
    = false.
Proof.
  split; [reflexivity|]. split; [reflexivity|].
  destruct (failed_load_keeps_the_model (Exception "no file") init)
    as (_ & _ & _ & _ & H).
  apply (H eq_refl eq_refl [Return ()]).
Defined.

(** X15. Choosing a language only changes the language: it starts no
    thread, keeps the model and the recording state, and can be exchanged
    with a change of model size; choosing the same language again changes
    nothing. *)
Theorem select_language_only_sets_the_language
    (lang size : string) (s : DictationApp) :
  let s' := exec (select_language lang) s in
  select_language lang s = (Return (), s')
  ∧ language s' = lang
  ∧ model s' = model s
  ∧ recording s' = recording s
  ∧ world s' = world s
  ∧ exec (select_language lang) s' = s'
  ∧ exec (select_language lang) (exec (select_model size) s)
    = exec (select_model size) s'.
Proof.
  intros s'. subst s'. repeat split.
  unfold exec, select_language, select_model, on_language_change,
    on_model_change, with_ui, assign.
  unfold_monad. simpl.
  destruct (decide (size ≠ model_size s)); reflexivity.
Qed.

(** ** Copying and saving the text *)

Section CopyAndSave.

Variable d : Desktop.

Lemma copy_all_text :
  ¬ blank (text_area (ui (app d))) →
  copy_all d
  = in_app (messagebox_showinfo "Success" "Text copied to clipboard!")
      (set_clipboard (strip (text_area (ui (app d)) +:+ LF)) d).
Proof.
  intros H. apply nonblank_iff in H. unfold nonblank in H. unfold copy_all.
  destruct (decide (strip (text_area (ui (app d)) +:+ LF) ≠ ""));
    [reflexivity | contradiction].
Qed.

Lemma copy_all_blank :
  blank (text_area (ui (app d))) →
  copy_all d = in_app (messagebox_showwarning "Warning" "No text to copy.") d.
Proof.
  intros H. unfold copy_all.
  destruct (decide (strip (text_area (ui (app d)) +:+ LF) ≠ "")) as [Hn|];
    [|reflexivity].
  apply nonblank_iff in Hn. contradiction.
Qed.

Lemma save_text_blank (answer : string) (fs : outcome unit) :
  blank (text_area (ui (app d))) →
  save_text answer fs d
  = in_app (messagebox_showwarning "Warning" "No text to save.") d.
Proof.
  intros H. unfold save_text.
  destruct (decide (strip (text_area (ui (app d)) +:+ LF) = "")) as [|Hn];
    [reflexivity|].
  apply nonblank_iff in Hn. contradiction.
Qed.

Lemma save_text_text (answer : string) (fs : outcome unit) :
  ¬ blank (text_area (ui (app d))) →
  save_text answer fs d
  = if decide (answer ≠ "") then
      match fs with
      | Return _ =>
          in_app (with_world (fun w => set_unfinished (unfinished w ∖ {[answer]}) w);;
                  messagebox_showinfo "Success" ("Text saved to " +:+ answer))
            (set_documents
               (<[answer := strip (text_area (ui (app d)) +:+ LF)]> (documents d)) d)
      | Raise e =>
          in_app (with_world (fun w => set_unfinished ({[answer]} ∪ unfinished w) w);;
                  messagebox_showerror "Error"
                    ("Failed to save file: " +:+ str e)) d
      end
    else (Return (), d).
Proof.
  intros H. apply nonblank_iff in H. unfold nonblank in H. unfold save_text.
  destruct (decide (strip (text_area (ui (app d)) +:+ LF) = ""));
    [contradiction | reflexivity].
Qed.

End CopyAndSave.

(** X16. When the text area holds more than white space, "Copy All" and
    "Save Text" deliver the same text: the content of the text area without
    the white space at its two ends.  The clipboard holds exactly that text
    afterwards (what it held before is replaced), the file chosen holds
    exactly that text, other files are untouched, and the text area itself
    is not changed. *)
Theorem copy_and_save_deliver_the_stripped_text
    (d : Desktop) (answer : string) :
  ¬ blank (text_area (ui (app d))) → answer ≠ "" →
  let text := strip (text_area (ui (app d)) +:+ LF) in
  let copied := (copy_all d).2 in
  let saved := (save_text answer (Return ()) d).2 in
  clipboard copied = text
  ∧ documents saved !! answer = Some text
  ∧ (∀ name, name ≠ answer → documents saved !! name = documents d !! name)
  ∧ trimmed text
  ∧ text ≠ ""
  ∧ (∃ pre post,
       text_area (ui (app d)) +:+ LF = pre +:+ text +:+ post
       ∧ blank pre ∧ blank post)
  ∧ text_area (ui (app copied)) = text_area (ui (app d))
  ∧ text_area (ui (app saved)) = text_area (ui (app d))
  ∧ documents copied = documents d
  ∧ clipboard saved = clipboard d
  ∧ dialogs (world (app copied))
    = dialogs (world (app d)) ++ [ShowInfo "Success" "Text copied to clipboard!"]
  ∧ dialogs (world (app saved))
    = dialogs (world (app d)) ++ [ShowInfo "Success" ("Text saved to " +:+ answer)].
Proof.
  intros Hnb Hans text copied saved. subst copied saved.
  rewrite (copy_all_text d Hnb), (save_text_text d answer (Return ()) Hnb).
  destruct (decide (answer ≠ "")); [|contradiction]. simpl.
  split; [reflexivity|]. split; [apply lookup_insert_eq|].
  split; [intros name Hname; apply lookup_insert_ne; congruence|].
  split; [apply strip_trimmed|].
  split; [apply nonblank_iff in Hnb; exact Hnb|].
  split; [apply strip_split|]. repeat split.
Qed.

Lemma copy_and_save_deliver_the_stripped_text_witness :
  let d := {| app := exec (with_ui (set_text_area ("  een" +:+ LF))) ready;
              clipboard := "oud"; documents := ∅ |} in
  ¬ blank (text_area (ui (app d)))
  ∧ clipboard (copy_all d).2 = "een"
  ∧ documents (save_text "nota.txt" (Return ()) d).2 !! "nota.txt" = Some "een".
Proof.
  intros d.
  assert (Hnb : ¬ blank (text_area (ui (app d)))).
  { intros H. apply strip_empty_iff in H. discriminate H. }
  destruct (copy_and_save_deliver_the_stripped_text d "nota.txt" Hnb)
    as (Hc & Hs & _); [discriminate|].
  split; [exact Hnb|]. split; [exact Hc | exact Hs].
Defined.

(** X17. When the text area holds nothing but white space — as after
    "Clear Text" — neither "Copy All" nor "Save Text" does anything but
    show its warning: the clipboard and the files are untouched, and the
    save dialog is not even opened (its answer and the file system play no
    part). *)
Theorem blank_text_is_neither_copied_nor_saved
    (d : Desktop) (answer : string) (fs : outcome unit) :
  blank (text_area (ui (app d))) →
  copy_all d = in_app (messagebox_showwarning "Warning" "No text to copy.") d
  ∧ save_text answer fs d
    = in_app (messagebox_showwarning "Warning" "No text to save.") d
  ∧ clipboard (copy_all d).2 = clipboard d
  ∧ documents (save_text answer fs d).2 = documents d
  ∧ copy_all (set_app (exec clear_text (app d)) d)
    = in_app (messagebox_showwarning "Warning" "No text to copy.")
        (set_app (exec clear_text (app d)) d).
Proof.
  intros Hb.
  rewrite (copy_all_blank d Hb), (save_text_blank d answer fs Hb).
  repeat split.
Qed.

Lemma blank_text_is_neither_copied_nor_saved_witness :
  let d := {| app := init; clipboard := "oud"; documents := ∅ |} in
  blank (text_area (ui (app d)))
  ∧ clipboard (copy_all d).2 = "oud"
  ∧ documents (save_text "nota.txt" (Return ()) d).2 = ∅.
Proof.
  intros d. assert (Hb : blank (text_area (ui (app d)))) by constructor.
  destruct (blank_text_is_neither_copied_nor_saved d "nota.txt" (Return ()) Hb)
    as (_ & _ & Hc & Hs & _).
  split; [exact Hb|]. split; [exact Hc | exact Hs].
Defined.

(** X18. "Save Text" never raises.  A cancelled dialog changes nothing at
    all.  A failing write shows "Failed to save file: " followed by the
    message and completes no file: the files written completely, the
    clipboard and the text area are as before, and the name chosen is noted
    as unfinished, since on disk that file may have been created, emptied
    or left incomplete.  A write that succeeds clears that note. *)
Theorem save_text_cancel_and_failure
    (d : Desktop) (answer : string) (fs : outcome unit) :
  (save_text answer fs d).1 = Return ()
  ∧ (¬ blank (text_area (ui (app d))) → answer = "" →
     save_text answer fs d = (Return (), d))
  ∧ (∀ e, ¬ blank (text_area (ui (app d))) → answer ≠ "" → fs = Raise e →
     documents (save_text answer fs d).2 = documents d
     ∧ clipboard (save_text answer fs d).2 = clipboard d
     ∧ text_area (ui (app (save_text answer fs d).2)) = text_area (ui (app d))
     ∧ (answer ∈ unfinished (world (app (save_text answer fs d).2)))
     ∧ dialogs (world (app (save_text answer fs d).2))
       = dialogs (world (app d))
         ++ [ShowError "Error" ("Failed to save file: " +:+ str e)])
  ∧ (¬ blank (text_area (ui (app d))) → answer ≠ "" → fs = Return () →
     (answer ∉ unfinished (world (app (save_text answer fs d).2)))
     ∧ documents (save_text answer fs d).2 !! answer
       = Some (strip (text_area (ui (app d)) +:+ LF))).
Proof.
  assert (Hcases : blank (text_area (ui (app d))) ∨ ¬ blank (text_area (ui (app d)))).
  { destruct (decide (strip (text_area (ui (app d)) +:+ LF) = "")) as [H|H].
    - left. apply strip_empty_iff in H. apply blank_app in H. tauto.
    - right. intros Hb. apply H, strip_empty_iff, blank_app.
      split; [exact Hb | apply blank_LF]. }
  split; [|split; [|split]].
  - destruct Hcases as [Hb|Hnb].
    + rewrite (save_text_blank d answer fs Hb). reflexivity.
    + rewrite (save_text_text d answer fs Hnb).
      destruct (decide (answer ≠ "")); [destruct fs|]; reflexivity.
  - intros Hnb ->. rewrite (save_text_text d "" fs Hnb). reflexivity.
  - intros e Hnb Hans ->. rewrite (save_text_text d answer (Raise e) Hnb).
    destruct (decide (answer ≠ "")); [|contradiction]. simpl.
    repeat split. apply elem_of_union. left. apply elem_of_singleton. reflexivity.
  - intros Hnb Hans ->. rewrite (save_text_text d answer (Return ()) Hnb).
    destruct (decide (answer ≠ "")); [|contradiction]. simpl.
    split; [|apply lookup_insert_eq].
    rewrite elem_of_difference, elem_of_singleton. tauto.
Qed.

Lemma save_text_cancel_and_failure_witness :
  let d := {| app := exec (with_ui (set_text_area "een")) ready;
              clipboard := ""; documents := ∅ |} in
  ¬ blank (text_area (ui (app d)))
  ∧ save_text "" (Return ()) d = (Return (), d)
  ∧ documents (save_text "nota.txt" (Raise (Exception "disk full")) d).2 = ∅
  ∧ ("nota.txt"
     ∈ unfinished (world (app (save_text "nota.txt"
                                 (Raise (Exception "disk full")) d).2))).
Proof.
  intros d.
  assert (Hnb : ¬ blank (text_area (ui (app d)))).
  { intros H. apply strip_empty_iff in H. discriminate H. }
  destruct (save_text_cancel_and_failure d "" (Return ()))
    as (_ & Hcancel & _).
  destruct (save_text_cancel_and_failure d "nota.txt"
              (Raise (Exception "disk full"))) as (_ & _ & Hfail & _).
  destruct (Hfail (Exception "disk full") Hnb) as (Hdoc & _ & _ & Hunf & _);
    [discriminate | reflexivity |].
  split; [exact Hnb|]. split; [apply Hcancel; [exact Hnb | reflexivity]|].
  split; [exact Hdoc | exact Hunf].
Defined.

(** ** Device failures at the button *)

(** X19. When the device cannot be opened, a click on the idle application
    with a model loaded shows "Failed to start recording: " followed by the
    message and starts nothing: the application stays idle with the button
    unchanged, although the buffer has already been emptied.  A second
    click, with the device opening, starts the recording. *)
Theorem failed_start_can_be_retried
    (e : exn) (s : DictationApp) :
  recording s = false → model s ≠ None →
  let s1 := step (Click (Raise e)) s in
  let s2 := run [Click (Raise e); Click (Return ())] s in
  recording s1 = false
  ∧ ui s1 = ui s
  ∧ frames s1 = []
  ∧ stream s1 = stream s
  ∧ streams_opened (world s1) = streams_opened (world s)
  ∧ threads (world s1) = threads (world s)
  ∧ dialogs (world s1)
    = dialogs (world s)
      ++ [ShowError "Error" ("Failed to start recording: " +:+ str e)]
  ∧ recording s2 = true
  ∧ stream s2 = Some {| stream_id := streams_opened (world s) |}
  ∧ threads (world s2) = threads (world s) ++ [record_audio_target]
  ∧ dialogs (world s2) = dialogs (world s1).
Proof.
  intros Hr Hm s1 s2.
  destruct (model s) as [m|] eqn:Em; [clear Hm | congruence].
  assert (H1 : s1 = exec (assign (set_frames []);;
                          messagebox_showerror "Error"
                            ("Failed to start recording: " +:+ str e)) s).
  { subst s1. simpl. unfold exec at 1.
    rewrite toggle_recording_spec, Hr,
      (start_recording_device_error _ s m e Em eq_refl). reflexivity. }
  assert (H2 : s2 = step (Click (Return ())) s1) by reflexivity.
  rewrite H2, H1.
  rewrite (step_click_starts _ m); [|exact Hr | exact Em].
  simpl. rewrite Hr. repeat split.
Qed.

Lemma failed_start_can_be_retried_witness :
  recording ready = false
  ∧ model ready ≠ None
  ∧ recording (step (Click (Raise (Exception "no device"))) ready) = false
  ∧ recording (run [Click (Raise (Exception "no device")); Click (Return ())]
                 ready) = true.
Proof.
  destruct (failed_start_can_be_retried (Exception "no device") ready)
    as (H1 & _ & _ & _ & _ & _ & _ & H2 & _); [reflexivity | discriminate |].
  split; [reflexivity|]. split; [discriminate|]. split; [exact H1 | exact H2].
Defined.

(** X20. When closing the stream fails at stop, the exception leaves
    [stop_recording] before the worker is started: the application is idle
    and its status says "Processing audio...", but no transcription thread
    exists and nothing will be queued for this session.  The captured
    chunks stay in the buffer only until the next recording starts, which
    empties it. *)
Theorem failed_close_drops_the_session
    (e : exn) (s : DictationApp) :
  recording s = true → stream s ≠ None → model s ≠ None →
  let s1 := step (Click (Raise e)) s in
  let s2 := step (Click (Return ())) s1 in
  (toggle_recording (Raise e) s).1 = Raise e
  ∧ recording s1 = false
  ∧ record_btn (ui s1) = StartRecordingText
  ∧ status_label (ui s1) = "Processing audio..."
  ∧ threads (world s1) = threads (world s)
  ∧ transcription_queue s1 = transcription_queue s
  ∧ streams_closed (world s1) = streams_closed (world s)
  ∧ frames s1 = frames s
  ∧ recording s2 = true
  ∧ frames s2 = []
  ∧ threads (world s2) = threads (world s) ++ [record_audio_target].
Proof.
  intros Hr Hst Hm s1 s2.
  destruct (model s) as [m|] eqn:Em; [clear Hm | congruence].
  destruct (stream s) as [st|] eqn:Est; [clear Hst | congruence].
  assert (Hstop : toggle_recording (Raise e) s
    = (Raise e,
       exec (assign (set_recording false);;
             record_btn_config StartRecordingText;;
             status_label_config "Processing audio...") s)).
  { rewrite toggle_recording_spec, Hr, stop_recording_spec, Est. reflexivity. }
  assert (H1 : s1 = exec (assign (set_recording false);;
                          record_btn_config StartRecordingText;;
                          status_label_config "Processing audio...") s).
  { subst s1. simpl. unfold exec at 1. rewrite Hstop. reflexivity. }
  subst s2. rewrite H1, Hstop.
  rewrite (step_click_starts _ m); [|reflexivity | exact Em].
  repeat split.
Qed.

Lemma failed_close_drops_the_session_witness :
  recording in_session = true
  ∧ stream in_session ≠ None
  ∧ model in_session ≠ None
  ∧ frames in_session = [chunk_a]
  ∧ threads (world (step (Click (Raise (Exception "stream error"))) in_session))
    = threads (world in_session)
  ∧ frames (step (Click (Return ()))
              (step (Click (Raise (Exception "stream error"))) in_session))
    = [].
Proof.
  destruct (failed_close_drops_the_session (Exception "stream error") in_session)
    as (_ & _ & _ & _ & Ht & _ & _ & _ & _ & Hf & _);
    [reflexivity | discriminate | discriminate |].
  split; [reflexivity|]. split; [discriminate|]. split; [discriminate|].
  split; [reflexivity|]. split; [exact Ht | exact Hf].
Defined.

(** ** A session and what runs beside it *)

Section BetweenClicks.

Lemma show_transcription_frames (item : string) (s : DictationApp) :
  frames (exec (show_transcription item) s) = frames s.
Proof.
  unfold exec. destruct (startswith item "Error:") eqn:H.
  - rewrite show_transcription_error by assumption. reflexivity.
  - rewrite show_transcription_text by assumption. reflexivity.
Qed.

Lemma show_all_frames (items : list string) :
  ∀ s, frames (show_all items s) = frames s.
Proof.
  induction items as [|item items IH]; intros s; [reflexivity|].
  rewrite show_all_cons, IH. apply show_transcription_frames.
Qed.

Lemma poll_frames (s : DictationApp) : frames (poll s) = frames s.
Proof.
  rewrite poll_spec.
  change (frames (show_all (transcription_queue s) s) = frames s).
  apply show_all_frames.
Qed.

Lemma process_audio_frames (env : process_env) (s : DictationApp) :
  frames (exec (process_audio env) s) = frames s.
Proof.
  unfold process_audio, exec, os_makedirs, wave_write, model_transcribe.
  unfold_monad.
  destruct (makedirs_result env); [destruct (wave_result env)|]; simpl;
    [destruct (model s); [destruct (transcribe_result env)|]|..]; reflexivity.
Qed.

Lemma control_recording_stream (s s' : DictationApp) :
  control s' = control s → recording s' = recording s ∧ stream s' = stream s.
Proof. unfold control. intros [= Hr Hst _ _ _ _ _ _ _ _ _]. auto. Qed.

(** An event that is not a click leaves [self.recording] and [self.stream]
    alone and does not rebind the buffer: at most the capture loop appends
    to it, while recording on a stream. *)
Lemma step_no_click (e : event) (s : DictationApp) :
  is_click e = false →
  recording (step e s) = recording s
  ∧ stream (step e s) = stream s
  ∧ frames (step e s)
    = frames s ++ match recording s, stream s with
                  | true, Some _ => appended_by e
                  | _, _ => []
                  end.
Proof.
  intros Hc.
  assert (Hnil : ∀ s0 : DictationApp,
            frames s0 ++ match recording s0, stream s0 with
                         | true, Some _ => @nil bytes
                         | _, _ => []
                         end = frames s0).
  { intros s0. destruct (recording s0), (stream s0); apply app_nil_r. }
  destruct e as [device|size|lang| |text| |engine|device|env| |size engine];
    try discriminate Hc; cbn [appended_by]; rewrite ?Hnil.
  - simpl. unfold exec, select_model, on_model_change. unfold_monad. simpl.
    destruct (decide (size ≠ model_size s)); repeat split.
  - repeat split.
  - repeat split.
  - repeat split.
  - destruct (control_recording_stream s (poll s) (poll_control s)) as [Hr Hst].
    split; [exact Hr|]. split; [exact Hst | apply poll_frames].
  - simpl. destruct engine; repeat split.
  - destruct (control_recording_stream s _ (record_audio_control device s))
      as [Hr Hst].
    split; [exact Hr|]. split; [exact Hst|]. cbn [step].
    destruct (recording s) eqn:Er; [destruct (stream s) as [st|] eqn:Est|].
    + apply record_audio_recording; congruence.
    + rewrite app_nil_r. apply record_audio_no_stream; assumption.
    + rewrite app_nil_r. unfold exec. rewrite record_audio_idle by assumption.
      reflexivity.
  - destruct (control_recording_stream s _ (process_audio_control env s))
      as [Hr Hst].
    split; [exact Hr|]. split; [exact Hst | apply process_audio_frames].
  - repeat split.
  - simpl. destruct engine; repeat split.
Qed.

Lemma appended_cons (e : event) (events : list event) :
  appended (e :: events) = appended_by e ++ appended events.
Proof. reflexivity. Qed.

Lemma run_cons (e : event) (events : list event) (s : DictationApp) :
  run (e :: events) s = run events (step e s).
Proof. reflexivity. Qed.

(** While a recording is in progress on a stream and the button is not
    clicked, the buffer grows by what the capture loop reads, in order. *)
Lemma run_recording_no_click (events : list event) :
  ∀ s, Forall (fun e => is_click e = false) events →
       recording s = true → stream s ≠ None →
       recording (run events s) = true
       ∧ stream (run events s) = stream s
       ∧ frames (run events s) = frames s ++ appended events.
Proof.
  induction events as [|e events IH]; intros s Hev Hr Hst.
  - simpl. rewrite app_nil_r. auto.
  - apply Forall_cons in Hev as [He Hev].
    destruct (step_no_click e s He) as (Hr1 & Hst1 & Hf1).
    rewrite Hr in Hf1. destruct (stream s) as [st|] eqn:Est; [|congruence].
    rewrite run_cons, appended_cons.
    destruct (IH (step e s) Hev) as (Hr2 & Hst2 & Hf2);
      [congruence | rewrite Hst1; discriminate |].
    rewrite Hr2, Hst2, Hf2, Hf1, Hst1, <- app_assoc. auto.
Qed.

(** While no recording is in progress and the button is not clicked, the
    buffer stays as it is. *)
Lemma run_idle_no_click (events : list event) :
  ∀ s, Forall (fun e => is_click e = false) events →
       recording s = false →
       recording (run events s) = false
       ∧ stream (run events s) = stream s
       ∧ frames (run events s) = frames s.
Proof.
  induction events as [|e events IH]; intros s Hev Hr; [auto|].
  apply Forall_cons in Hev as [He Hev].
  destruct (step_no_click e s He) as (Hr1 & Hst1 & Hf1).
  rewrite Hr, app_nil_r in Hf1.
  rewrite run_cons.
  destruct (IH (step e s) Hev) as (Hr2 & Hst2 & Hf2); [congruence|].
  rewrite Hr2, Hst2, Hf2, Hf1, Hst1. auto.
Qed.

End BetweenClicks.

(** C6, as stated, fails: the worker reads [self.frames] when it runs, not
    when the session is stopped.  A session captures one chunk and is
    stopped; the button is clicked once more before the worker runs, which
    rebinds the buffer; the worker then writes an artifact without any
    sample, and the chunk appended during the session is lost. *)
Lemma artifact_misses_chunks_after_restart :
  let session := [Click (Return ()); RecordAudioThread [Return chunk_a];
                  Click (Return ())] in
  let s := run (session ++ [Click (Return ()); ProcessAudioThread env_first])
             ready in
  frames (run session ready) = [chunk_a]
  ∧ threads (world (run session ready))
    = threads (world ready) ++ [record_audio_target; process_audio_target]
  ∧ files (world s) !! temp_filename (now env_first) = Some (artifact [])
  ∧ wave_data (artifact []) = []
  ∧ artifact [] ≠ artifact [chunk_a]
  ∧ size (files (world s)) = 1%nat.
Proof. vm_compute. repeat split; discriminate. Qed.

(** C6, amended.  In a session started with a model loaded, as long as the
    record button is not clicked the buffer holds exactly the chunks the
    capture loop has read, in the order of their arrival, whatever else
    runs in between.  When the session is stopped with the stream closing
    without error, and the worker runs before the button is clicked again
    and can write the file, the artifact (mono, 16 bit, 16 kHz) holds as
    sample data the concatenation of those chunks in that order.  Its byte
    count is the sum of the chunks' byte counts, and when the chunks are
    made of whole samples its frame count is the sum of their sample
    counts. *)
Theorem artifact_is_concatenation_of_chunks
    (s : DictationApp) (during after : list event) (env : process_env) :
  model s ≠ None →
  Forall (fun e => is_click e = false) during →
  Forall (fun e => is_click e = false) after →
  makedirs_result env = Return () → wave_result env = Return () →
  let s1 := exec (start_recording (Return ())) s in
  let s2 := run during s1 in
  let s3 := exec (stop_recording (Return ())) s2 in
  let s4 := run after s3 in
  let s5 := exec (process_audio env) s4 in
  let chunks := appended during in
  frames s1 = []
  ∧ frames s2 = chunks
  ∧ frames s4 = chunks
  ∧ threads (world s3) = threads (world s2) ++ [process_audio_target]
  ∧ files (world s5) !! temp_filename (now env) = Some (artifact chunks)
  ∧ wave_data (artifact chunks) = concat chunks
  ∧ Z.of_nat (length (wave_data (artifact chunks)))
    = total (map (fun c => Z.of_nat (length c)) chunks)
  ∧ (Forall whole_samples chunks →
     nframes (artifact chunks) = total (map samples chunks)).
Proof.
  intros Hm Hduring Hafter Hd Hw s1 s2 s3 s4 s5 chunks.
  destruct (model s) as [m|] eqn:Em; [clear Hm | congruence].
  assert (H1 : frames s1 = [] ∧ recording s1 = true ∧ stream s1 ≠ None).
  { subst s1. unfold exec.
    rewrite (start_recording_opens (Return ()) s m Em eq_refl). simpl.
    repeat split. discriminate. }
  destruct H1 as (Hf1 & Hr1 & Hst1).
  destruct (run_recording_no_click during s1 Hduring Hr1 Hst1) as (_ & _ & Hf2).
  fold s2 in Hf2. rewrite Hf1 in Hf2. simpl in Hf2. fold chunks in Hf2.
  destruct (stop_recording_dispatches (Return ()) s2)
    as (_ & Hr3 & Hf3 & _ & _ & _ & _ & _ & _ & Ht3 & _); [right; reflexivity|].
  fold s3 in Hr3, Hf3, Ht3.
  destruct (run_idle_no_click after s3 Hafter Hr3) as (_ & _ & Hf4).
  fold s4 in Hf4.
  assert (Hf4' : frames s4 = chunks) by congruence.
  split; [exact Hf1|]. split; [exact Hf2|]. split; [exact Hf4'|].
  split; [exact Ht3|]. split.
  - subst s5. rewrite process_audio_writes by assumption.
    rewrite Hf4'. apply lookup_insert_eq.
  - split; [reflexivity|]. split; [apply length_concat_total|].
    intros Hwhole. simpl. apply samples_concat, Hwhole.
Qed.

Lemma artifact_is_concatenation_of_chunks_witness :
  let during := [RecordAudioThread [Return chunk_a]; Timer;
                 RecordAudioThread [Return chunk_b]] in
  model ready ≠ None
  ∧ Forall (fun e => is_click e = false) during
  ∧ appended during = [chunk_a; chunk_b]
  ∧ Forall whole_samples (appended during)
  ∧ nframes (artifact (appended during)) = 3
  ∧ files (world (exec (process_audio env_error_text)
                    (run [Timer; SelectLanguage "en"]
                       (exec (stop_recording (Return ()))
                          (run during
                             (exec (start_recording (Return ())) ready))))))
    !! temp_filename (now env_error_text)
    = Some (artifact [chunk_a; chunk_b]).
Proof.
  intros during.
  assert (Hduring : Forall (fun e => is_click e = false) during)
    by (repeat constructor).
  assert (Hafter : Forall (fun e => is_click e = false) [Timer; SelectLanguage "en"])
    by (repeat constructor).
  assert (Hw : Forall whole_samples (appended during)) by (repeat constructor).
  destruct (artifact_is_concatenation_of_chunks ready during
              [Timer; SelectLanguage "en"] env_error_text)
    as (_ & _ & _ & _ & Hfile & _ & _ & Hn);
    [discriminate | exact Hduring | exact Hafter | reflexivity | reflexivity |].
  split; [discriminate|]. split; [exact Hduring|]. split; [reflexivity|].
  split; [exact Hw|]. split; [rewrite (Hn Hw); reflexivity | exact Hfile].
Defined.

(** C8, as stated, fails: in a session that has captured a chunk, a read of
    the stream fails and, at the stop, closing the stream fails as well.
    The capture loop has kept both chunks in the buffer, but
    [stop_recording] is left by the exception before the worker is
    started: no transcription thread exists, nothing is written or queued,
    and the next click on the button empties the buffer. *)
Lemma read_failure_then_failed_close_drops_audio :
  let s1 := step (RecordAudioThread
                    [Return chunk_b; Raise (Exception "Input overflowed")])
              in_session in
  let s2 := step (Click (Raise (Exception "Stream closed"))) s1 in
  let s3 := step (Click (Return ())) s2 in
  recording in_session = true
  ∧ frames s1 = [chunk_a; chunk_b]
  ∧ (toggle_recording (Raise (Exception "Stream closed")) s1).1
    = Raise (Exception "Stream closed")
  ∧ recording s2 = false
  ∧ threads (world s2) = threads (world s1)
  ∧ started process_audio_target s2 = 0%nat
  ∧ transcription_queue s2 = []
  ∧ files (world s2) = ∅
  ∧ frames s3 = []
  ∧ started process_audio_target s3 = 0%nat.
Proof. vm_compute. repeat split. Qed.

(** C8, amended.  In a session in progress, a read of the stream that raises
    ends the capture loop without an exception leaving the thread: the
    failure is printed and nothing else changes, so the chunks appended
    before it are still in the buffer, in order.  When [stop_recording]
    closes the stream without error it starts the transcription worker on
    that buffer, and when the worker runs before the record button is
    clicked again and can write the file, it writes their concatenation as
    the artifact. *)
Theorem read_failure_keeps_partial_audio
    (s : DictationApp) (chunks : list bytes) (e : exn)
    (later : list (outcome bytes)) (after : list event) (env : process_env) :
  recording s = true → stream s ≠ None →
  Forall (fun ev => is_click ev = false) after →
  let s1 := exec (record_audio (map Return chunks ++ Raise e :: later)) s in
  let s2 := exec (stop_recording (Return ())) s1 in
  let s3 := run after s2 in
  record_audio (map Return chunks ++ Raise e :: later) s
  = (Return Finished,
     exec (print ("Recording error: " +:+ str e))
       (set_frames (frames s ++ chunks) s))
  ∧ frames s1 = frames s ++ chunks
  ∧ recording s1 = true
  ∧ (stop_recording (Return ()) s1).1 = Return ()
  ∧ frames s2 = frames s ++ chunks
  ∧ threads (world s2) = threads (world s) ++ [process_audio_target]
  ∧ frames s3 = frames s ++ chunks
  ∧ (makedirs_result env = Return () → wave_result env = Return () →
     files (world (exec (process_audio env) s3)) !! temp_filename (now env)
     = Some (artifact (frames s ++ chunks))).
Proof.
  intros Hr Hst Hafter s1 s2 s3.
  pose proof (record_audio_read_error chunks e later s Hr Hst) as Hrec.
  assert (Hs1 : s1 = exec (print ("Recording error: " +:+ str e))
                       (set_frames (frames s ++ chunks) s))
    by (subst s1; unfold exec at 1; rewrite Hrec; reflexivity).
  assert (Hf1 : frames s1 = frames s ++ chunks) by (rewrite Hs1; reflexivity).
  assert (Ht1 : threads (world s1) = threads (world s)) by (rewrite Hs1; reflexivity).
  destruct (stop_recording_dispatches (Return ()) s1)
    as (Hret & Hr2 & Hf2 & _ & _ & _ & _ & _ & _ & Ht2 & _); [right; reflexivity|].
  fold s2 in Hr2, Hf2, Ht2.
  destruct (run_idle_no_click after s2 Hafter Hr2) as (_ & _ & Hf3).
  fold s3 in Hf3.
  split; [exact Hrec|]. split; [exact Hf1|].
  split; [rewrite Hs1; exact Hr|]. split; [exact Hret|].
  split; [congruence|]. split; [congruence|]. split; [congruence|].
  intros Hd Hw. rewrite process_audio_writes by assumption.
  rewrite Hf3, Hf2, Hf1. apply lookup_insert_eq.
Qed.

Lemma read_failure_keeps_partial_audio_witness :
  recording in_session = true
  ∧ stream in_session ≠ None
  ∧ Forall (fun ev => is_click ev = false) [Timer]
  ∧ frames (exec (record_audio (map Return [chunk_b]
                                ++ Raise (Exception "Input overflowed")
                                   :: [Return chunk_a])) in_session)
    = [chunk_a; chunk_b]
  ∧ files (world (exec (process_audio env_first)
                    (run [Timer]
                       (exec (stop_recording (Return ()))
                          (exec (record_audio
                                   (map Return [chunk_b]
                                    ++ Raise (Exception "Input overflowed")
                                       :: [Return chunk_a])) in_session)))))
    !! temp_filename (now env_first)
    = Some (artifact [chunk_a; chunk_b]).
Proof.
  assert (Hafter : Forall (fun ev => is_click ev = false) [Timer])
    by (repeat constructor).
  destruct (read_failure_keeps_partial_audio in_session [chunk_b]
              (Exception "Input overflowed") [Return chunk_a] [Timer] env_first)
    as (_ & Hf & _ & _ & _ & _ & _ & Hfile);
    [reflexivity | discriminate | exact Hafter |].
  split; [reflexivity|]. split; [discriminate|]. split; [exact Hafter|].
  split; [exact Hf|]. apply Hfile; reflexivity.
Defined.
